(** * Verification model of the goodplace-map synchronisation engine

    Shallow embedding of the Webflow -> D1 mirror:
    - [src/app/api/webhooks/cms-sync/route.ts] (webhook handler, upserts,
      deletes, junction replacement, signature verification);
    - the full reconciliation job (second file of [src/unnamed/part_007]:
      [fetchWebflowItems], [syncStories], [syncPlaces], [syncInitiatives]);
    - [src/lib/shared.ts] and [src/lib/podcasts.ts] (live Webflow read path);
    - [src/app/api/podcasts/route.ts] and [src/lib/data.ts] (read layer).

    JavaScript numbers are modelled as [jsnum]: NaN, the two infinities and
    finite decimals [m * 10^e] as produced by [parseFloat] on a decimal
    literal (rounding to binary64 is not modelled: no claim depends on it). *)

From Stdlib Require Import String Ascii List ZArith Bool Lia.
From Stdlib Require Import Sorting.Sorted Sorting.Permutation.
Import ListNotations.
Open Scope string_scope.
Open Scope Z_scope.

(* ------------------------------------------------------------------ *)
(** ** JavaScript numbers, [parseFloat], [parseInt], [trim], [split]   *)
(* ------------------------------------------------------------------ *)

Inductive jsnum : Type :=
| NaN
| PosInf
| NegInf
| Fin (m e : Z).   (* the value m * 10^e *)

Definition isNaN (x : jsnum) : bool :=
  match x with NaN => true | _ => false end.

(** StrWhiteSpaceChar restricted to ASCII: TAB, LF, VT, FF, CR, SPACE. *)
Definition is_ws (c : ascii) : bool :=
  let n := nat_of_ascii c in
  ((9 <=? n) && (n <=? 13))%nat || (n =? 32)%nat.

Definition is_digit (c : ascii) : bool :=
  let n := nat_of_ascii c in ((48 <=? n) && (n <=? 57))%nat.

Definition digit_val (c : ascii) : Z := Z.of_nat (nat_of_ascii c) - 48.

Fixpoint drop_ws (l : list ascii) : list ascii :=
  match l with
  | c :: r => if is_ws c then drop_ws r else l
  | [] => []
  end.

(** [String.prototype.trim]: whitespace removed at both ends. *)
Definition trim (s : string) : string :=
  string_of_list_ascii (rev (drop_ws (rev (drop_ws (list_ascii_of_string s))))).

(** [s.split(',')]: always at least one part; empty parts are kept. *)
Fixpoint split_acc (sep : ascii) (l : list ascii) (cur : list ascii)
  : list string :=
  match l with
  | [] => [string_of_list_ascii (rev cur)]
  | c :: r =>
      if Ascii.eqb c sep
      then string_of_list_ascii (rev cur) :: split_acc sep r []
      else split_acc sep r (c :: cur)
  end.

Definition split (sep : ascii) (s : string) : list string :=
  split_acc sep (list_ascii_of_string s) [].

(** Longest prefix of decimal digits. *)
Fixpoint take_digits (l : list ascii) : list ascii * list ascii :=
  match l with
  | c :: r =>
      if is_digit c then let (d, rest) := take_digits r in (c :: d, rest)
      else ([], l)
  | [] => ([], [])
  end.

Definition digits_value (d : list ascii) : Z :=
  fold_left (fun acc c => acc * 10 + digit_val c) d 0.

Definition take_sign (l : list ascii) : Z * list ascii :=
  match l with
  | "-"%char :: r => (-1, r)
  | "+"%char :: r => (1, r)
  | _ => (1, l)
  end.

Definition infinity_chars : list ascii := list_ascii_of_string "Infinity".

Fixpoint is_prefix (p l : list ascii) : bool :=
  match p, l with
  | [], _ => true
  | a :: p', b :: l' => Ascii.eqb a b && is_prefix p' l'
  | _ :: _, [] => false
  end.

(** Optional exponent part [(e|E) [+-]? digits]; when no digit follows the
    marker the exponent is not part of the literal. *)
Definition take_exponent (l : list ascii) : Z :=
  match l with
  | c :: r =>
      if Ascii.eqb c "e"%char || Ascii.eqb c "E"%char then
        let (sg, r') := take_sign r in
        let (d, _) := take_digits r' in
        match d with [] => 0 | _ => sg * digits_value d end
      else 0
  | [] => 0
  end.

(** Global [parseFloat]: the longest prefix (after leading whitespace) that
    is a StrDecimalLiteral, NaN when there is none. *)
Definition parseFloat (s : string) : jsnum :=
  let l := drop_ws (list_ascii_of_string s) in
  let (sg, l1) := take_sign l in
  if is_prefix infinity_chars l1 then (if sg =? 1 then PosInf else NegInf)
  else
    let (d1, l2) := take_digits l1 in
    let (d2, l3) :=
      match l2 with
      | "."%char :: r => take_digits r
      | _ => ([], l2)
      end in
    match (d1 ++ d2)%list with
    | [] => NaN
    | ds => Fin (sg * digits_value ds) (take_exponent l3 - Z.of_nat (length d2))
    end.

(** Global [parseInt(s, 10)]; [None] is NaN. *)
Definition parseInt (s : string) : option Z :=
  let l := drop_ws (list_ascii_of_string s) in
  let (sg, l1) := take_sign l in
  match fst (take_digits l1) with
  | [] => None
  | d => Some (sg * digits_value d)
  end.

(** JavaScript truthiness of an optional string ([undefined] or the empty string are
    falsy). *)
Definition truthy (o : option string) : bool :=
  match o with
  | Some s => negb (String.eqb s EmptyString)
  | None => false
  end.

(* ------------------------------------------------------------------ *)
(** ** Webflow field bags                                              *)
(* ------------------------------------------------------------------ *)

(** A field declared [string | number]. *)
Inductive strnum : Type :=
| SStr (s : string)
| SNum (n : jsnum).

(** A link declared [{ url: string } | string]. *)
Inductive link : Type :=
| LObj (url : string)
| LStr (s : string).

(** The [fieldData] bag of an item, with every key read by the three
    per-kind interfaces ([PodcastFieldData], [PlaceFieldData],
    [InitiativeFieldData], [TagFieldData]) at its declared type; a key
    declared optional is an [option].  Image fields [{ url }] are kept as
    their [url], the only property read from them. *)
Record fieldData : Type := mkFields {
  fd_name : string;
  fd_slug : option string;
  fd_episode_description : option string;
  fd_description : option string;
  fd_cover_image : option string;
  fd_main_image : option string;
  fd_image : option string;
  fd_thumbnail_image_2 : option string;
  fd_cover_image_2 : option string;
  fd_youtube_link : option link;
  fd_video_link : option link;
  fd_spotify_link : option string;
  fd_website_link : option string;
  fd_playlist_link_2 : option string;
  fd_button_text : option string;
  fd_button_text_2 : option string;
  fd_latitude_2 : option strnum;
  fd_longitude_2 : option strnum;
  fd_location_coordinates : option string;
  fd_location_name : option string;
  fd_published_date : option string;
  fd_episode_tags : option (list string);
  fd_tags : option (list string);
  fd_initiative_tags_2 : option (list string)
}.

(** [WebflowWebhookPayload['payload']] and the [WebflowItem] of a listing. *)
Record item : Type := mkItem {
  it_id : string;
  it_collectionId : string;
  it_fieldData : fieldData
}.

(* ------------------------------------------------------------------ *)
(** ** Coordinate parsing                                              *)
(* ------------------------------------------------------------------ *)

(** [parseCoordinates] of [cms-sync/route.ts] (identical in the
    reconciliation job). *)
Definition parseCoordinates (fd : fieldData) : option (jsnum * jsnum) :=
  let combined :=
    match fd_location_coordinates fd with
    | Some coordString =>
        if truthy (Some coordString) then
          match map trim (split "," coordString) with
          | [p0; p1] =>
              let lat := parseFloat p0 in
              let lng := parseFloat p1 in
              if negb (isNaN lat) && negb (isNaN lng) then Some (lat, lng)
              else None
          | _ => None
          end
        else None
    | None => None
    end in
  match combined with
  | Some c => Some c
  | None =>
      (* Fall back to separate latitude-2/longitude-2 fields *)
      match fd_latitude_2 fd, fd_longitude_2 fd with
      | Some lat2, Some lng2 =>
          let num v := match v with SStr s => parseFloat s | SNum n => n end in
          let lat := num lat2 in
          let lng := num lng2 in
          if negb (isNaN lat) && negb (isNaN lng) then Some (lat, lng)
          else None
      | _, _ => None
      end
  end.

(** [parseCoordinates] of [src/lib/shared.ts] (the live read path). *)
Definition parseCoordinatesShared (coordString : string)
  : option (jsnum * jsnum) :=
  match map trim (split "," coordString) with
  | [p0; p1] =>
      let latitude := parseFloat p0 in
      let longitude := parseFloat p1 in
      if isNaN latitude || isNaN longitude then None
      else Some (latitude, longitude)
  | _ => None
  end.

(** Truthiness and [parseFloat] of a [latitude-2] value: a number is
    truthy unless it is 0 or NaN, and [parseFloat(String(n))] is [n]. *)
Definition truthy_strnum (v : option strnum) : bool :=
  match v with
  | Some (SStr s) => truthy (Some s)
  | Some (SNum NaN) => false
  | Some (SNum (Fin m _)) => negb (m =? 0)
  | Some (SNum _) => true
  | None => false
  end.

Definition parseFloat_strnum (v : strnum) : jsnum :=
  match v with SStr s => parseFloat s | SNum n => n end.

(** The coordinate step of [transformEpisode] ([src/lib/podcasts.ts]). *)
Definition transformEpisodeCoords (fd : fieldData) : option (jsnum * jsnum) :=
  if truthy (fd_location_coordinates fd) then
    match fd_location_coordinates fd with
    | Some s => parseCoordinatesShared s
    | None => None
    end
  else if truthy_strnum (fd_latitude_2 fd) && truthy_strnum (fd_longitude_2 fd)
  then
    match fd_latitude_2 fd, fd_longitude_2 fd with
    | Some a, Some b =>
        let latitude := parseFloat_strnum a in
        let longitude := parseFloat_strnum b in
        if isNaN latitude || isNaN longitude then None
        else Some (latitude, longitude)
    | _, _ => None
    end
  else None.

(** [parseYoutubeLink]. *)
Definition parseYoutubeLink (value : option link) : option string :=
  match value with
  | Some (LObj url) => Some url
  | Some (LStr s) => Some s
  | None => None
  end.

(* ------------------------------------------------------------------ *)
(** ** The D1 store ([src/db/schema.ts])                               *)
(* ------------------------------------------------------------------ *)

Inductive kind : Type := Story | Place | Initiative.

(** The columns written by the sync code, common to [stories], [places]
    and [initiatives]; a kind-specific column of another kind stays NULL.
    The same record is the argument of [.set({...})] and [.values({...})],
    where [None] is a key whose value is [undefined]. *)
Record cols : Type := mkCols {
  c_title : option string;
  c_slug : option string;
  c_description : option string;
  c_thumbnailUrl : option string;
  c_mainImageUrl : option string;
  c_youtubeLink : option string;
  c_buttonText : option string;
  c_spotifyLink : option string;
  c_publishedAt : option string;
  c_websiteUrl : option string;
  c_googlePlaylistUrl : option string;
  c_latitude : option jsnum;
  c_longitude : option jsnum;
  c_locationName : option string;
  c_createdAt : option string;
  c_updatedAt : option string
}.

Record row : Type := mkRow {
  r_id : string;
  r_webflowItemId : string;
  r_cols : cols
}.

Record tagrow : Type := mkTag {
  t_id : string;
  t_webflowItemId : string;
  t_name : string;
  t_slug : option string
}.

(** A junction row [(entity id, tag id)]. *)
Definition jrow : Type := (string * string)%type.

Record db : Type := mkDb {
  stories : list row;
  places : list row;
  initiatives : list row;
  tags : list tagrow;
  storyTags : list jrow;
  placeTags : list jrow;
  initiativeTags : list jrow
}.

Definition table (k : kind) (d : db) : list row :=
  match k with
  | Story => stories d | Place => places d | Initiative => initiatives d
  end.

Definition jtable (k : kind) (d : db) : list jrow :=
  match k with
  | Story => storyTags d | Place => placeTags d | Initiative => initiativeTags d
  end.

Definition set_table (k : kind) (t : list row) (d : db) : db :=
  match k with
  | Story => mkDb t (places d) (initiatives d) (tags d)
               (storyTags d) (placeTags d) (initiativeTags d)
  | Place => mkDb (stories d) t (initiatives d) (tags d)
               (storyTags d) (placeTags d) (initiativeTags d)
  | Initiative => mkDb (stories d) (places d) t (tags d)
               (storyTags d) (placeTags d) (initiativeTags d)
  end.

Definition set_jtable (k : kind) (j : list jrow) (d : db) : db :=
  match k with
  | Story => mkDb (stories d) (places d) (initiatives d) (tags d)
               j (placeTags d) (initiativeTags d)
  | Place => mkDb (stories d) (places d) (initiatives d) (tags d)
               (storyTags d) j (initiativeTags d)
  | Initiative => mkDb (stories d) (places d) (initiatives d) (tags d)
               (storyTags d) (placeTags d) j
  end.

Definition set_tags (t : list tagrow) (d : db) : db :=
  mkDb (stories d) (places d) (initiatives d) t
       (storyTags d) (placeTags d) (initiativeTags d).

(* ------------------------------------------------------------------ *)
(** ** Store effects: a state and error monad                          *)
(* ------------------------------------------------------------------ *)

(** Each [await db...] statement runs on its own (there is no transaction):
    a statement that throws leaves the effects of the earlier ones. *)
Inductive result (A : Type) : Type :=
| Ok (a : A)
| Err (msg : string).
Arguments Ok {A} a.
Arguments Err {A} msg.

Definition M (A : Type) : Type := db -> db * result A.

Definition ret {A} (a : A) : M A := fun d => (d, Ok a).

Definition bind {A B} (c : M A) (f : A -> M B) : M B :=
  fun d => match c d with
           | (d', Ok a) => f a d'
           | (d', Err e) => (d', Err e)
           end.

Notation "x <- c ;; k" := (bind c (fun x => k))
  (at level 61, c at next level, right associativity).
Notation "c ;;; k" := (bind c (fun _ => k))
  (at level 61, right associativity).

(** [for (const x of xs) { body }]. *)
Fixpoint for_each {A} (xs : list A) (body : A -> M unit) : M unit :=
  match xs with
  | [] => ret tt
  | x :: r => body x ;;; for_each r body
  end.

(** [.set({...})] ignores keys whose value is [undefined]. *)
Definition pick {A} (n o : option A) : option A :=
  match n with Some v => Some v | None => o end.

Definition merge (p o : cols) : cols :=
  mkCols (pick (c_title p) (c_title o)) (pick (c_slug p) (c_slug o))
    (pick (c_description p) (c_description o))
    (pick (c_thumbnailUrl p) (c_thumbnailUrl o))
    (pick (c_mainImageUrl p) (c_mainImageUrl o))
    (pick (c_youtubeLink p) (c_youtubeLink o))
    (pick (c_buttonText p) (c_buttonText o))
    (pick (c_spotifyLink p) (c_spotifyLink o))
    (pick (c_publishedAt p) (c_publishedAt o))
    (pick (c_websiteUrl p) (c_websiteUrl o))
    (pick (c_googlePlaylistUrl p) (c_googlePlaylistUrl o))
    (pick (c_latitude p) (c_latitude o)) (pick (c_longitude p) (c_longitude o))
    (pick (c_locationName p) (c_locationName o))
    (pick (c_createdAt p) (c_createdAt o)) (pick (c_updatedAt p) (c_updatedAt o)).

(** [db.select({ id }).from(t).where(eq(t.webflowItemId, wid)).get()]. *)
Definition select_id_by_wid (k : kind) (wid : string) : M (option string) :=
  fun d => (d, Ok (option_map r_id
                 (find (fun r => String.eqb (r_webflowItemId r) wid) (table k d)))).

(** [db.update(t).set(p).where(eq(t.webflowItemId, wid))]. *)
Definition update_by_wid (k : kind) (wid : string) (p : cols) : M unit :=
  fun d => (set_table k
              (map (fun r => if String.eqb (r_webflowItemId r) wid
                             then mkRow (r_id r) (r_webflowItemId r) (merge p (r_cols r))
                             else r) (table k d)) d, Ok tt).

(** [db.insert(t).values(r)]: primary key on [id], UNIQUE on
    [webflow_item_id], NOT NULL on [title], [latitude], [longitude]. *)
Definition insert_row (k : kind) (r : row) : M unit :=
  fun d =>
    if existsb (fun x => String.eqb (r_id x) (r_id r)
                         || String.eqb (r_webflowItemId x) (r_webflowItemId r))
               (table k d)
    then (d, Err "UNIQUE constraint failed")
    else match c_title (r_cols r), c_latitude (r_cols r), c_longitude (r_cols r) with
         | Some _, Some _, Some _ => (set_table k (table k d ++ [r]) d, Ok tt)
         | _, _, _ => (d, Err "NOT NULL constraint failed")
         end.

(** [db.delete(t).where(eq(t.id, id))]. *)
Definition delete_row_by_id (k : kind) (id : string) : M unit :=
  fun d => (set_table k (filter (fun r => negb (String.eqb (r_id r) id)) (table k d)) d,
            Ok tt).

(** [db.delete(jt).where(eq(jt.<kind>Id, eid))]. *)
Definition delete_junction_by_entity (k : kind) (eid : string) : M unit :=
  fun d => (set_jtable k (filter (fun j => negb (String.eqb (fst j) eid)) (jtable k d)) d,
            Ok tt).

(** The junction delete of the webhook route, which imports [places],
    [placeTags], [initiatives] and [initiativeTags] and so gets the second
    schema of [src/db/schema.ts], where [podcastTags] is the alias of
    [storyTags]: that table has a [storyId] column and no [podcastId], so
    [eq(podcastTags.podcastId, id)] has no column on its left and
    [db.delete(podcastTags).where(...)] throws. *)
Definition webhook_delete_junction_by_entity (k : kind) (eid : string) : M unit :=
  match k with
  | Story => fun d => (d, Err "SQLITE_ERROR: syntax error")
  | Place | Initiative => delete_junction_by_entity k eid
  end.

Definition jrow_eqb (a b : jrow) : bool :=
  String.eqb (fst a) (fst b) && String.eqb (snd a) (snd b).

(** [db.insert(jt).values({ eid, tagId })]: composite primary key. *)
Definition insert_junction (k : kind) (j : jrow) : M unit :=
  fun d => if existsb (jrow_eqb j) (jtable k d)
           then (d, Err "UNIQUE constraint failed")
           else (set_jtable k (jtable k d ++ [j]) d, Ok tt).

(** [db.select({ id: tags.id }).from(tags).where(eq(tags.webflowItemId, w)).get()]. *)
Definition select_tag_id_by_wid (wid : string) : M (option string) :=
  fun d => (d, Ok (option_map t_id
                 (find (fun t => String.eqb (t_webflowItemId t) wid) (tags d)))).

(** [crypto.randomUUID()], modelled as an identifier that differs from every
    identifier already in the store (UUID collisions are not modelled). *)
Definition all_ids (d : db) : list string :=
  map r_id (stories d) ++ map r_id (places d) ++ map r_id (initiatives d)
  ++ map t_id (tags d).

Definition fresh_id (d : db) : string := String.concat EmptyString (all_ids d) ++ "-".

Definition randomUUID : M string := fun d => (d, Ok (fresh_id d)).

(* ------------------------------------------------------------------ *)
(** ** Upsert Engine (webhook path and reconciliation path)            *)
(* ------------------------------------------------------------------ *)

(** The object passed to [.set({...})] by [upsertPodcast], [upsertPlace],
    [upsertInitiative] (and by [syncStories], [syncPlaces],
    [syncInitiatives], which write the same columns). *)
Definition entity_patch (k : kind) (fd : fieldData) (coords : jsnum * jsnum)
  (now : string) : cols :=
  let (lat, lng) := coords in
  match k with
  | Story =>
      mkCols (Some (fd_name fd)) (fd_slug fd) (fd_episode_description fd)
        (fd_cover_image fd) (fd_main_image fd)
        (parseYoutubeLink (fd_youtube_link fd)) (fd_button_text fd)
        (fd_spotify_link fd) (fd_published_date fd) None None
        (Some lat) (Some lng) (fd_location_name fd) None (Some now)
  | Place =>
      mkCols (Some (fd_name fd)) (fd_slug fd) (fd_description fd)
        (fd_image fd) (fd_cover_image fd)
        (parseYoutubeLink (fd_youtube_link fd)) (fd_button_text fd)
        None None (fd_website_link fd) None
        (Some lat) (Some lng) (fd_location_name fd) None (Some now)
  | Initiative =>
      mkCols (Some (fd_name fd)) (fd_slug fd) (fd_description fd)
        (fd_thumbnail_image_2 fd) (fd_cover_image_2 fd)
        (parseYoutubeLink (fd_video_link fd)) (fd_button_text_2 fd)
        None None None (fd_playlist_link_2 fd)
        (Some lat) (Some lng) (fd_location_name fd) None (Some now)
  end.

(** The object passed to [.values({...})]: the same columns plus
    [createdAt: now]. *)
Definition entity_values (k : kind) (fd : fieldData) (coords : jsnum * jsnum)
  (now : string) : cols :=
  let p := entity_patch k fd coords now in
  mkCols (c_title p) (c_slug p) (c_description p) (c_thumbnailUrl p)
    (c_mainImageUrl p) (c_youtubeLink p) (c_buttonText p) (c_spotifyLink p)
    (c_publishedAt p) (c_websiteUrl p) (c_googlePlaylistUrl p)
    (c_latitude p) (c_longitude p) (c_locationName p) (Some now) (c_updatedAt p).

(** [fieldData['episode-tags'] || []], [fieldData.tags || []],
    [fieldData['initiative-tags-2'] || []]. *)
Definition tagIds (k : kind) (fd : fieldData) : list string :=
  let v := match k with
           | Story => fd_episode_tags fd
           | Place => fd_tags fd
           | Initiative => fd_initiative_tags_2 fd
           end in
  match v with Some l => l | None => [] end.

(** [syncPodcastTagJunction], [syncPlaceTagJunction],
    [syncInitiativeTagJunction] (and the [sync*TagJunction] of the
    reconciliation job, which are the same). *)
Definition link_tag (k : kind) (eid : string) (tagWebflowId : string) : M unit :=
  tag <- select_tag_id_by_wid tagWebflowId ;;
  match tag with
  | Some tid => insert_junction k (eid, tid)
  | None => ret tt
  end.

Definition syncTagJunction (k : kind) (eid : string) (tagWebflowIds : list string)
  : M unit :=
  delete_junction_by_entity k eid ;;;
  for_each tagWebflowIds (link_tag k eid).

(** The same three functions as the webhook route has them: its first
    statement is the junction delete above, so the insert of
    [{ podcastId, tagId }] is never reached for a story. *)
Definition webhook_syncTagJunction (k : kind) (eid : string)
  (tagWebflowIds : list string) : M unit :=
  webhook_delete_junction_by_entity k eid ;;;
  for_each tagWebflowIds (link_tag k eid).

(** The lookup-then-update-or-insert common to the webhook upserts and the
    reconciliation loop; returns the local id. *)
Definition write_entity (k : kind) (wid : string) (fd : fieldData)
  (coords : jsnum * jsnum) (now : string) : M string :=
  existing <- select_id_by_wid k wid ;;
  match existing with
  | Some eid =>
      update_by_wid k wid (entity_patch k fd coords now) ;;; ret eid
  | None =>
      eid <- randomUUID ;;
      insert_row k (mkRow eid wid (entity_values k fd coords now)) ;;; ret eid
  end.

(** [upsertPodcast], [upsertPlace], [upsertInitiative]. *)
Definition upsertEntity (k : kind) (payload : item) (now : string) : M unit :=
  let fd := it_fieldData payload in
  match parseCoordinates fd with
  | None => ret tt   (* Skipping ... without valid coordinates *)
  | Some coords =>
      eid <- write_entity k (it_id payload) fd coords now ;;
      webhook_syncTagJunction k eid (tagIds k fd)
  end.

(** [deletePodcast], [deletePlace], [deleteInitiative]. *)
Definition deleteEntity (k : kind) (wid : string) : M unit :=
  existing <- select_id_by_wid k wid ;;
  match existing with
  | Some eid => webhook_delete_junction_by_entity k eid ;;; delete_row_by_id k eid
  | None => ret tt
  end.

(** [upsertTag] (and the loop body of [syncTagsFromCollection]). *)
Definition upsertTag (payload : item) : M unit :=
  let fd := it_fieldData payload in
  existing <- select_tag_id_by_wid (it_id payload) ;;
  match existing with
  | Some _ =>
      fun d => (set_tags (map (fun t =>
                  if String.eqb (t_webflowItemId t) (it_id payload)
                  then mkTag (t_id t) (t_webflowItemId t) (fd_name fd)
                             (pick (fd_slug fd) (t_slug t))
                  else t) (tags d)) d, Ok tt)
  | None =>
      id <- randomUUID ;;
      fun d =>
        if existsb (fun t => String.eqb (t_id t) id
                             || String.eqb (t_webflowItemId t) (it_id payload)) (tags d)
        then (d, Err "UNIQUE constraint failed")
        else (set_tags (tags d ++ [mkTag id (it_id payload) (fd_name fd) (fd_slug fd)]) d,
              Ok tt)
  end.

(** [deleteTag]: the foreign keys cascade to the three junction tables. *)
Definition deleteTag (wid : string) : M unit :=
  tag <- select_tag_id_by_wid wid ;;
  match tag with
  | Some tid =>
      fun d =>
        let keep := filter (fun j => negb (String.eqb (snd j) tid)) in
        (mkDb (stories d) (places d) (initiatives d)
              (filter (fun t => negb (String.eqb (t_id t) tid)) (tags d))
              (keep (storyTags d)) (keep (placeTags d)) (keep (initiativeTags d)),
         Ok tt)
  | None => ret tt
  end.

(* ------------------------------------------------------------------ *)
(** ** Full Reconciliation Job (second file of [src/unnamed/part_007]) *)
(* ------------------------------------------------------------------ *)

(** One [WebflowListResponse]: [pagination] is [None] when absent, else its
    [total]. *)
Record listResponse (A : Type) : Type := mkList {
  lr_items : list A;
  lr_total : option Z
}.
Arguments mkList {A} lr_items lr_total.
Arguments lr_items {A} l.
Arguments lr_total {A} l.

(** [fetchWebflowItems]: the answer of the source to
    [GET ...items?limit=100&offset=o] is [respond o] ([Err] when
    [!response.ok]).  The [while (true)] loop need not terminate, so it is
    given as a big-step relation: [fetch_loop respond offset acc out] holds
    when the loop entered with [offset] and [allItems = acc] returns [out]. *)
Definition limit : Z := 100.

Inductive fetch_loop {A : Type} (respond : Z -> result (listResponse A))
  : Z -> list A -> result (list A) -> Prop :=
| fetch_error : forall offset acc e,
    respond offset = Err e ->
    fetch_loop respond offset acc (Err e)
| fetch_stop : forall offset acc data,
    respond offset = Ok data ->
    (match lr_total data with
     | None => true
     | Some total => Z.of_nat (length (acc ++ lr_items data)%list) >=? total
     end) = true ->
    fetch_loop respond offset acc (Ok ((acc ++ lr_items data)%list))
| fetch_next : forall offset acc data total out,
    respond offset = Ok data ->
    lr_total data = Some total ->
    (Z.of_nat (length (acc ++ lr_items data)%list) >=? total) = false ->
    fetch_loop respond (offset + limit) (acc ++ lr_items data)%list out ->
    fetch_loop respond offset acc out.

Definition fetchWebflowItems {A} (respond : Z -> result (listResponse A))
  (out : result (list A)) : Prop :=
  fetch_loop respond 0 [] out.

(** The loop of [syncStories], [syncPlaces], [syncInitiatives] over the
    fetched items; the count is the number of items not skipped. *)
Fixpoint sync_loop (k : kind) (now : string) (items : list item) (count : nat)
  : M nat :=
  match items with
  | [] => ret count
  | it :: rest =>
      let fd := it_fieldData it in
      match parseCoordinates fd with
      | None => sync_loop k now rest count    (* continue *)
      | Some coords =>
          eid <- write_entity k (it_id it) fd coords now ;;
          (if (0 <? length (tagIds k fd))%nat
           then syncTagJunction k eid (tagIds k fd)
           else ret tt) ;;;
          sync_loop k now rest (S count)
      end
  end.

(** [syncStories] / [syncPlaces] / [syncInitiatives], given the outcome of
    [fetchWebflowItems] for the collection. *)
Definition syncKind (k : kind) (fetched : result (list item)) (now : string)
  : M nat :=
  match fetched with
  | Err e => fun d => (d, Err e)
  | Ok items => sync_loop k now items 0
  end.

(** [syncTagsFromCollection]. *)
Definition syncTagsFromCollection (fetched : result (list item)) : M nat :=
  match fetched with
  | Err e => fun d => (d, Err e)
  | Ok items => for_each items upsertTag ;;; ret (length items)
  end.

(** The sequence of collection syncs run by the full-sync [POST]: the tag
    collections first, then the three kinds, each when its collection id is
    configured; [fetched c] is the outcome of [fetchWebflowItems] for
    collection [c] and [now] the [new Date().toISOString()] of each kind. *)
Record syncEnv : Type := mkSyncEnv {
  se_STORIES : option string;
  se_STORY_TAGS : option string;
  se_PLACES : option string;
  se_PLACE_TAGS : option string;
  se_INITIATIVES : option string;
  se_INITIATIVE_TAGS : option string
}.

Definition when_configured (cid : option string) (c : string -> M nat)
  : M (option nat) :=
  match cid with
  | Some s => if truthy (Some s) then (n <- c s ;; ret (Some n)) else ret None
  | None => ret None
  end.

Definition fullSync (env : syncEnv) (fetched : string -> result (list item))
  (now : string) : M (list (option nat)) :=
  a <- when_configured (se_STORY_TAGS env) (fun c => syncTagsFromCollection (fetched c)) ;;
  b <- when_configured (se_PLACE_TAGS env) (fun c => syncTagsFromCollection (fetched c)) ;;
  c <- when_configured (se_INITIATIVE_TAGS env) (fun c => syncTagsFromCollection (fetched c)) ;;
  s <- when_configured (se_STORIES env) (fun c => syncKind Story (fetched c) now) ;;
  p <- when_configured (se_PLACES env) (fun c => syncKind Place (fetched c) now) ;;
  i <- when_configured (se_INITIATIVES env) (fun c => syncKind Initiative (fetched c) now) ;;
  ret [a; b; c; s; p; i].

(* ------------------------------------------------------------------ *)
(** ** Webhook Event Handler ([cms-sync/route.ts] [POST])              *)
(* ------------------------------------------------------------------ *)

Record response : Type := Resp {
  status : Z;
  body : string
}.

(** [try { ... } catch (error) { handler }] over store effects. *)
Definition catch {A} (c : M A) (h : string -> M A) : M A :=
  fun d => match c d with
           | (d', Err e) => h e d'
           | r => r
           end.

(** [WebhookEnv] without the [DB] binding. *)
Record webhookEnv : Type := mkWebhookEnv {
  WEBFLOW_WEBHOOK_SECRET : option string;
  WEBFLOW_STORIES_COLLECTION_ID : option string;
  WEBFLOW_PLACES_COLLECTION_ID : option string;
  WEBFLOW_INITIATIVES_COLLECTION_ID : option string;
  WEBFLOW_STORY_TAGS_COLLECTION_ID : option string;
  WEBFLOW_PLACE_TAGS_COLLECTION_ID : option string;
  WEBFLOW_INITIATIVE_TAGS_COLLECTION_ID : option string
}.

(** An inbound request: the two headers ([None] when absent), the raw body
    and the [{ triggerType, payload }] that [JSON.parse] makes of it
    ([triggerType] is [None] when the key is absent). *)
Record request : Type := mkRequest {
  x_webflow_timestamp : option string;
  x_webflow_signature : option string;
  bodyText : string;
  triggerType : option string;
  payload : item
}.

Inductive contentType : Type := CPodcast | CPlace | CInitiative | CTag.

(** [Map.prototype.set] / [get] on string keys. *)
Fixpoint map_set (key : string) (v : contentType)
  (m : list (string * contentType)) : list (string * contentType) :=
  match m with
  | [] => [(key, v)]
  | (k', v') :: r =>
      if String.eqb k' key then (k', v) :: r else (k', v') :: map_set key v r
  end.

Fixpoint map_get (key : string) (m : list (string * contentType))
  : option contentType :=
  match m with
  | [] => None
  | (k', v) :: r => if String.eqb k' key then Some v else map_get key r
  end.

Definition set_if (cid : option string) (v : contentType)
  (m : list (string * contentType)) : list (string * contentType) :=
  match cid with
  | Some c => if truthy (Some c) then map_set c v m else m
  | None => m
  end.

Definition collectionMap (env : webhookEnv) : list (string * contentType) :=
  set_if (WEBFLOW_INITIATIVE_TAGS_COLLECTION_ID env) CTag
  (set_if (WEBFLOW_PLACE_TAGS_COLLECTION_ID env) CTag
  (set_if (WEBFLOW_STORY_TAGS_COLLECTION_ID env) CTag
  (set_if (WEBFLOW_INITIATIVES_COLLECTION_ID env) CInitiative
  (set_if (WEBFLOW_PLACES_COLLECTION_ID env) CPlace
  (set_if (WEBFLOW_STORIES_COLLECTION_ID env) CPodcast []))))).

(** The constant-time comparison loop: lengths first, then the OR of the
    XORs of the character codes. *)
Fixpoint mismatch_acc (a b : list ascii) (acc : Z) : Z :=
  match a, b with
  | x :: a', y :: b' =>
      mismatch_acc a' b'
        (Z.lor acc (Z.lxor (Z.of_nat (nat_of_ascii x)) (Z.of_nat (nat_of_ascii y))))
  | _, _ => acc
  end.

Definition ct_equal (expected signature : string) : bool :=
  if negb (Nat.eqb (String.length expected) (String.length signature)) then false
  else mismatch_acc (list_ascii_of_string expected)
                    (list_ascii_of_string signature) 0 =? 0.

Section Webhook.

(** The lower-case hex encoding of HMAC-SHA256 under key [secret] of
    [data], as computed with [crypto.subtle]. *)
Variable hmac_sha256_hex : string -> string -> string.

(** [verifySignature]; [now] is [Date.now()] in milliseconds. *)
Definition verifySignature (now : Z) (timestamp bodyTxt signature secret : string)
  : bool :=
  if negb (truthy (Some timestamp)) || negb (truthy (Some signature))
     || negb (truthy (Some secret)) then false
  else
    let fresh :=
      match parseInt timestamp with
      | Some requestTime => negb (now - requestTime >? 300000)
      | None => true   (* NaN > 300000 is false *)
      end in
    if negb fresh then false
    else ct_equal (hmac_sha256_hex secret (timestamp ++ ":" ++ bodyTxt)) signature.

Definition isDelete (t : option string) : bool :=
  match t with
  | Some s => String.eqb s "collection_item_deleted"
              || String.eqb s "collection_item_unpublished"
  | None => false
  end.

(** The [try] block of [POST] once the content type is known. *)
Definition apply (ct : contentType) (trigger : option string) (p : item)
  (nowIso : string) : M unit :=
  match ct with
  | CTag => if isDelete trigger then deleteTag (it_id p) else upsertTag p
  | CPodcast => if isDelete trigger then deleteEntity Story (it_id p)
                else upsertEntity Story p nowIso
  | CPlace => if isDelete trigger then deleteEntity Place (it_id p)
              else upsertEntity Place p nowIso
  | CInitiative => if isDelete trigger then deleteEntity Initiative (it_id p)
                   else upsertEntity Initiative p nowIso
  end.

(** Routing and apply, the part of [POST] after authentication. *)
Definition route (env : webhookEnv) (nowIso : string) (req : request)
  : M response :=
  let p := payload req in
  match map_get (it_collectionId p) (collectionMap env) with
  | None => ret (Resp 200 "OK")   (* Unknown collection ID *)
  | Some ct =>
      catch (apply ct (triggerType req) p nowIso ;;; ret (Resp 200 "OK"))
            (fun _ => ret (Resp 500 "Internal error"))
  end.

Definition POST (env : webhookEnv) (nowMs : Z) (nowIso : string) (req : request)
  : M response :=
  match x_webflow_timestamp req, x_webflow_signature req with
  | Some timestamp, Some signature =>
      if negb (truthy (Some timestamp)) || negb (truthy (Some signature))
      then ret (Resp 401 "Missing signature headers")
      else
        let webhookSecret :=
          match WEBFLOW_WEBHOOK_SECRET env with Some s => s | None => EmptyString end in
        if truthy (Some webhookSecret)
           && negb (verifySignature nowMs timestamp (bodyText req) signature webhookSecret)
        then ret (Resp 401 "Invalid signature")
        else route env nowIso req
  | _, _ => ret (Resp 401 "Missing signature headers")
  end.

End Webhook.

(* ------------------------------------------------------------------ *)
(** ** Read Layer for Stories                                          *)
(* ------------------------------------------------------------------ *)

Record tagOut : Type := mkTagOut {
  tg_id : string;
  tg_name : string;
  tg_slug : option string
}.

(** A [Podcast] as returned to clients: its identity, the stored columns
    (or their live-mapped values) and the attached tags. *)
Record podcast : Type := mkPodcast {
  pd_id : string;
  pd_webflowItemId : string;
  pd_cols : cols;
  pd_tags : list tagOut
}.

(** Stable insertion sort with a comparator (negative: [a] first), as
    [Array.prototype.sort]. *)
Fixpoint insert_by {A} (cmp : A -> A -> Z) (x : A) (l : list A) : list A :=
  match l with
  | [] => [x]
  | y :: r => if cmp x y <? 0 then x :: l else y :: insert_by cmp x r
  end.

Definition sort_by {A} (cmp : A -> A -> Z) (l : list A) : list A :=
  fold_left (fun acc x => insert_by cmp x acc) l [].

(** [orderBy(desc(stories.publishedAt))]: binary collation, NULL smallest. *)
Definition desc_publishedAt (a b : row) : Z :=
  match c_publishedAt (r_cols a), c_publishedAt (r_cols b) with
  | None, None => 0
  | None, Some _ => 1
  | Some _, None => -1
  | Some x, Some y =>
      match String.compare y x with Lt => -1 | Eq => 0 | Gt => 1 end
  end.

(** The tags of a story: [tags INNER JOIN story_tags WHERE storyId = id]. *)
Definition story_tags_of (d : db) (sid : string) : list tagOut :=
  flat_map (fun j =>
    if String.eqb (fst j) sid then
      map (fun t => mkTagOut (t_id t) (t_name t) (t_slug t))
          (filter (fun t => String.eqb (t_id t) (snd j)) (tags d))
    else []) (storyTags d).

Definition with_tags (d : db) (r : row) : podcast :=
  mkPodcast (r_id r) (r_webflowItemId r) (r_cols r) (story_tags_of d (r_id r)).

(** [getStoriesFromDb] of [src/lib/data.ts]; [dbq] is the store, or the
    error its queries throw. *)
Definition getStoriesFromDb (dbq : result db) : result (list podcast) :=
  match dbq with
  | Err e => Err e
  | Ok d => Ok (map (with_tags d) (sort_by desc_publishedAt (stories d)))
  end.

(** [fetchFromDatabase] of [src/app/api/podcasts/route.ts]. *)
Definition fetchFromDatabase (dbq : result db) (tagIdsF : list string)
  : result (list podcast) :=
  match dbq with
  | Err e => Err e
  | Ok d =>
      let storyList :=
        if (0 <? length tagIdsF)%nat then
          let storyIds :=
            nodup string_dec
              (map fst (filter (fun j => existsb (String.eqb (snd j)) tagIdsF)
                               (storyTags d))) in
          match storyIds with
          | [] => None
          | _ => Some (sort_by desc_publishedAt
                   (filter (fun r => existsb (String.eqb (r_id r)) storyIds)
                           (stories d)))
          end
        else Some (sort_by desc_publishedAt (stories d)) in
      match storyList with
      | None => Ok []     (* return Response.json([]) *)
      | Some l => Ok (map (with_tags d) l)
      end
  end.

(** [x || null] on an optional string. *)
Definition or_null (o : option string) : option string :=
  if truthy o then o else None.

Section LiveRead.

(** [new Date(s).getTime()]: [None] is the [NaN] of an Invalid Date. *)
Variable getTime : string -> option Z.

(** [transformEpisode] of [src/lib/podcasts.ts]; [tagsMap] is the list of
    tags it was built from ([new Map] keeps the last duplicate). *)
Definition transformEpisode (episode : item) (tagsMap : list tagOut)
  : option podcast :=
  let fd := it_fieldData episode in
  match transformEpisodeCoords fd with
  | None => None
  | Some (latitude, longitude) =>
      let youtubeLink := parseYoutubeLink (fd_youtube_link fd) in
      let podcastTags :=
        flat_map (fun tagId =>
          match find (fun t => String.eqb (tg_id t) tagId) (rev tagsMap) with
          | Some t => [t]
          | None => []
          end) (match fd_episode_tags fd with Some l => l | None => [] end) in
      Some (mkPodcast (it_id episode) (it_id episode)
        (mkCols (Some (fd_name fd)) (or_null (fd_slug fd))
           (or_null (fd_episode_description fd)) (or_null (fd_cover_image fd))
           (or_null (fd_main_image fd)) (or_null youtubeLink)
           (or_null (fd_button_text fd)) (or_null (fd_spotify_link fd))
           (or_null (fd_published_date fd)) None None
           (Some latitude) (Some longitude) (or_null (fd_location_name fd))
           None None)
        podcastTags)
  end.

(** The comparator of [podcasts.sort] in [getPodcastsFromWebflow]; a [NaN]
    difference (a date that does not parse) counts as [+0], as the sort's
    [SortCompare] takes it. *)
Definition newest_first (a b : podcast) : Z :=
  match c_publishedAt (pd_cols a), c_publishedAt (pd_cols b) with
  | None, None => 0
  | None, Some _ => 1
  | Some _, None => -1
  | Some x, Some y =>
      match getTime y, getTime x with
      | Some ty, Some tx => ty - tx
      | _, _ => 0
      end
  end.

(** [getPodcastsFromWebflow]: [configured] is [!!collectionId && !!token];
    [live] is the outcome of the single [fetch] of the collection
    ([Err] when it throws or [!response.ok]). *)
Definition getPodcastsFromWebflow (configured : bool) (allTags : list tagOut)
  (live : result (list item)) (filterTagIds : option (list string))
  : result (list podcast) :=
  if negb configured then Ok []
  else
    match live with
    | Err e => Err e
    | Ok items =>
        let ps := flat_map (fun e => match transformEpisode e allTags with
                                     | Some p => [p] | None => [] end) items in
        let ps :=
          match filterTagIds with
          | Some f =>
              if (0 <? length f)%nat
              then filter (fun p => existsb (fun t => existsb (String.eqb (tg_id t)) f)
                                            (pd_tags p)) ps
              else ps
          | None => ps
          end in
        Ok (sort_by newest_first ps)
    end.

Inductive readResponse : Type :=
| RJson (l : list podcast)
| RError500.

(** [GET] of [src/app/api/podcasts/route.ts]: [tagsParam] is the [tags]
    query parameter, [liveTags] what [getTagsFromWebflow] returns (it never
    throws). *)
Definition GET (tagsParam : option string) (dbq : result db) (configured : bool)
  (liveTags : list tagOut) (live : result (list item)) : readResponse :=
  let tagIdsF :=
    match tagsParam with
    | Some s => filter (fun x => truthy (Some x)) (split "," s)
    | None => []
    end in
  match fetchFromDatabase dbq tagIdsF with
  | Ok l => RJson l
  | Err _ =>
      match getPodcastsFromWebflow configured liveTags live
              (if (0 <? length tagIdsF)%nat then Some tagIdsF else None) with
      | Ok l => RJson l
      | Err _ => RError500
      end
  end.

(** [getAllStories] of [src/lib/data.ts]. *)
Definition getAllStories (dbq : result db) (configured : bool)
  (storyTagList : list tagOut) (live : result (list item))
  : result (list podcast) :=
  match getStoriesFromDb dbq with
  | Ok l => if (0 <? length l)%nat then Ok l
            else getPodcastsFromWebflow configured storyTagList live None
  | Err _ => getPodcastsFromWebflow configured storyTagList live None
  end.

End LiveRead.

(* ------------------------------------------------------------------ *)
(** ** Further read helpers ([src/lib/podcasts.ts])                    *)
(* ------------------------------------------------------------------ *)

(** [p.slug !== excludeSlug] for a truthy [excludeSlug]: a [null] slug
    differs from every string. *)
Definition slug_differs (excludeSlug : string) (p : podcast) : bool :=
  match c_slug (pd_cols p) with
  | Some s => negb (String.eqb s excludeSlug)
  | None => true
  end.

(** [getRandomPodcast]; [Math.random()] is the fraction [num / den], and
    [filtered[randomIndex]] is [nth_error]. *)
Definition getRandomPodcast (podcasts : list podcast) (excludeSlug : option string)
  (num den : Z) : option podcast :=
  let filtered :=
    match excludeSlug with
    | Some ex => if truthy (Some ex) then filter (slug_differs ex) podcasts else podcasts
    | None => podcasts
    end in
  if (length filtered =? 0)%nat then None
  else
    let randomIndex := num * Z.of_nat (length filtered) / den in
    nth_error filtered (Z.to_nat randomIndex).

(* ------------------------------------------------------------------ *)
(** ** Full-sync route ([POST] of the second file of [src/unnamed/part_007]) *)
(* ------------------------------------------------------------------ *)

Module FullSyncRoute.

(** The JSON answers of the route: the per-collection counts, the 401 and
    the 500 with [String(error)]. *)
Inductive syncResponse : Type :=
| SyncComplete (results : list (option nat))
| Unauthorized
| SyncFailed (details : string).

(** The template literal [`Bearer ${expectedToken}`]: an unset token is
    rendered as [undefined]. *)
Definition bearer (expectedToken : option string) : string :=
  "Bearer " ++ match expectedToken with Some t => t | None => "undefined" end.

(** [POST]: [authHeader] is [request.headers.get('authorization')]
    ([None] for [null]), [expectedToken] is [WEBFLOW_SITE_API_TOKEN]. *)
Definition POST (expectedToken authHeader : option string) (env : syncEnv)
  (fetched : string -> result (list item)) (now : string) : M syncResponse :=
  match authHeader with
  | Some h =>
      if negb (truthy (Some h)) || negb (String.eqb h (bearer expectedToken))
      then ret Unauthorized
      else catch (results <- fullSync env fetched now ;; ret (SyncComplete results))
                 (fun e => ret (SyncFailed e))
  | None => ret Unauthorized
  end.

End FullSyncRoute.

(* ------------------------------------------------------------------ *)
(** ** Read layer for places ([src/app/api/places/route.ts])           *)
(* ------------------------------------------------------------------ *)

Module PlacesRoute.

(** A [Place] as returned by the database read: the stored row and its tags. *)
Record place : Type := mkPlace {
  pl_id : string;
  pl_webflowItemId : string;
  pl_cols : cols;
  pl_tags : list tagOut
}.

(** [orderBy(asc(places.title))]: binary collation, NULL first. *)
Definition asc_title (a b : row) : Z :=
  match c_title (r_cols a), c_title (r_cols b) with
  | None, None => 0
  | None, Some _ => -1
  | Some _, None => 1
  | Some x, Some y =>
      match String.compare x y with Lt => -1 | Eq => 0 | Gt => 1 end
  end.

(** The tags of a place: [tags INNER JOIN place_tags WHERE placeId = id]. *)
Definition place_tags_of (d : db) (pid : string) : list tagOut :=
  flat_map (fun j =>
    if String.eqb (fst j) pid then
      map (fun t => mkTagOut (t_id t) (t_name t) (t_slug t))
          (filter (fun t => String.eqb (t_id t) (snd j)) (tags d))
    else []) (placeTags d).

Definition with_place_tags (d : db) (r : row) : place :=
  mkPlace (r_id r) (r_webflowItemId r) (r_cols r) (place_tags_of d (r_id r)).

(** [fetchFromDatabase] of the places route. *)
Definition fetchFromDatabase (dbq : result db) (tagIds : list string)
  : result (list place) :=
  match dbq with
  | Err e => Err e
  | Ok d =>
      let placeList :=
        if (0 <? length tagIds)%nat then
          let placeIds :=
            nodup string_dec
              (map fst (filter (fun j => existsb (String.eqb (snd j)) tagIds)
                               (placeTags d))) in
          match placeIds with
          | [] => None
          | _ => Some (sort_by asc_title
                   (filter (fun r => existsb (String.eqb (r_id r)) placeIds)
                           (places d)))
          end
        else Some (sort_by asc_title (places d)) in
      match placeList with
      | None => Ok []     (* return Response.json([]) *)
      | Some l => Ok (map (with_place_tags d) l)
      end
  end.

(** Order of the places read from the store: by title, ascending. *)
Definition title_order (p q : place) : Prop :=
  match c_title (pl_cols p), c_title (pl_cols q) with
  | None, _ => True
  | Some _, None => False
  | Some x, Some y => String.compare x y <> Gt
  end.

End PlacesRoute.

(* ------------------------------------------------------------------ *)
(** ** Coordinate guard of the legacy podcast sync (first file of
       [src/unnamed/part_007])                                         *)
(* ------------------------------------------------------------------ *)

(** [typeof v === 'string' ? parseFloat(v) : v]; [None] is [undefined]. *)
Definition legacy_num (v : option strnum) : option jsnum :=
  match v with
  | Some (SStr s) => Some (parseFloat s)
  | Some (SNum n) => Some n
  | None => None
  end.

(** [!x] on a number: [undefined], NaN and zero are falsy. *)
Definition falsy_num (x : option jsnum) : bool :=
  match x with
  | None => true
  | Some NaN => true
  | Some (Fin m _) => m =? 0
  | Some _ => false
  end.

(** The coordinate step of the legacy [syncPodcasts]: [None] is the
    [continue] of [!latitude || !longitude || isNaN(latitude) || isNaN(longitude)]. *)
Definition legacyCoordinates (fd : fieldData) : option (jsnum * jsnum) :=
  let latitude := legacy_num (fd_latitude_2 fd) in
  let longitude := legacy_num (fd_longitude_2 fd) in
  match latitude, longitude with
  | Some lat, Some lng =>
      if falsy_num latitude || falsy_num longitude || isNaN lat || isNaN lng
      then None else Some (lat, lng)
  | _, _ => None
  end.

(* ------------------------------------------------------------------ *)
(** ** Specification predicates                                        *)
(* ------------------------------------------------------------------ *)

(** The local tag ids that the webflow ids [tagWebflowIds] resolve to
    against the tag table [ts], in order; a webflow id with no local tag
    contributes nothing. *)
Fixpoint resolveTags (ts : list tagrow) (tagWebflowIds : list string) : list string :=
  match tagWebflowIds with
  | [] => []
  | w :: r =>
      match find (fun t => String.eqb (t_webflowItemId t) w) ts with
      | Some t => t_id t :: resolveTags ts r
      | None => resolveTags ts r
      end
  end.

(** A coordinate column holding a number (not [NULL], not [NaN]). *)
Definition coord_ok (o : option jsnum) : bool :=
  match o with Some n => negb (isNaN n) | None => false end.

Definition row_ok (r : row) : bool :=
  coord_ok (c_latitude (r_cols r)) && coord_ok (c_longitude (r_cols r)).

(** Every entity row of the store has numeric coordinates. *)
Definition coords_inv (d : db) : Prop :=
  forall k, forallb row_ok (table k d) = true.

(** A store operation keeps [coords_inv], whatever it returns. *)
Definition preserves {A} (c : M A) : Prop :=
  forall d, coords_inv d -> coords_inv (fst (c d)).

(** The columns [c] with [updatedAt] replaced by [u]. *)
Definition set_updatedAt (c : cols) (u : option string) : cols :=
  mkCols (c_title c) (c_slug c) (c_description c) (c_thumbnailUrl c)
    (c_mainImageUrl c) (c_youtubeLink c) (c_buttonText c) (c_spotifyLink c)
    (c_publishedAt c) (c_websiteUrl c) (c_googlePlaylistUrl c)
    (c_latitude c) (c_longitude c) (c_locationName c) (c_createdAt c) u.

(** The columns holding only [createdAt]. *)
Definition created_only (now : string) : cols :=
  mkCols None None None None None None None None None None None None None None
    (Some now) None.

(** A row after [.set(p)] when its external id is [wid]. *)
Definition updated (wid : string) (p : cols) (r : row) : row :=
  if String.eqb (r_webflowItemId r) wid
  then mkRow (r_id r) (r_webflowItemId r) (merge p (r_cols r))
  else r.

(** The rows of [l] with external id [wid]. *)
Definition rows_with (wid : string) (l : list row) : list row :=
  filter (fun r => String.eqb (r_webflowItemId r) wid) l.

(** The junction rows of entity [eid], and those of the other entities. *)
Definition junction_of (eid : string) (j : list jrow) : list jrow :=
  filter (fun x => String.eqb (fst x) eid) j.

Definition junction_others (eid : string) (j : list jrow) : list jrow :=
  filter (fun x => negb (String.eqb (fst x) eid)) j.

(** The local id of the row with external id [wid], as the upserts look it up. *)
Definition local_id (k : kind) (wid : string) (d : db) : option string :=
  option_map r_id (find (fun r => String.eqb (r_webflowItemId r) wid) (table k d)).

(** An item that the reconciliation loop does not skip. *)
Definition has_coordinates (it : item) : bool :=
  match parseCoordinates (it_fieldData it) with Some _ => true | None => false end.

(** A configured, non-empty collection id equal to [c]. *)
Definition cid_matches (o : option string) (c : string) : bool :=
  match o with
  | Some s => truthy (Some s) && String.eqb s c
  | None => false
  end.

(** Order of the stories read from the store: a story with a [publishedAt]
    comes before one without, and of two dates the greater string first. *)
Definition pub_order (p q : podcast) : Prop :=
  match c_publishedAt (pd_cols p), c_publishedAt (pd_cols q) with
  | _, None => True
  | None, Some _ => False
  | Some x, Some y => String.compare x y <> Lt
  end.

(** Order of the live stories: dated ones first, later [getTime] first
    (two dates that do not both parse are in no order). *)
Definition live_order (getTime : string -> option Z) (p q : podcast) : Prop :=
  match c_publishedAt (pd_cols p), c_publishedAt (pd_cols q) with
  | _, None => True
  | None, Some _ => False
  | Some x, Some y =>
      match getTime x, getTime y with
      | Some tx, Some ty => ty <= tx
      | _, _ => False
      end
  end.

(** The [publishedAt] of a live story parses as a date when present. *)
Definition dated_ok (getTime : string -> option Z) (p : podcast) : Prop :=
  forall s, c_publishedAt (pd_cols p) = Some s -> getTime s <> None.

(** A podcast that [getRandomPodcast] must not return for [excludeSlug]. *)
Definition excluded (excludeSlug : option string) (p : podcast) : bool :=
  match excludeSlug with
  | Some s =>
      truthy (Some s)
      && match c_slug (pd_cols p) with Some x => String.eqb x s | None => false end
  | None => false
  end.

(** A list of tag ids that a [tags] query parameter can carry: each one
    non-empty and free of commas. *)
Definition plain_ids (ids : list string) : Prop :=
  forall x, In x ids -> x <> EmptyString /\ ~ In ","%char (list_ascii_of_string x).

(** Both signature headers are present with non-empty values (the first
    check of the webhook [POST]). *)
Definition headers_present (req : request) : bool :=
  match x_webflow_timestamp req, x_webflow_signature req with
  | Some ts, Some sg => truthy (Some ts) && truthy (Some sg)
  | _, _ => false
  end.

(* ------------------------------------------------------------------ *)
(** ** Fixtures and evaluation checks                                  *)
(* ------------------------------------------------------------------ *)

(** A field bag with [name], the coordinate fields and a tag list (under
    the key of kind [k]); every other key is absent. *)
Definition fields_with (k : kind) (name : string) (coords : option string)
  (lat2 lng2 : option strnum) (tagList : option (list string)) : fieldData :=
  mkFields name None None None None None None None None None None None None
    None None None lat2 lng2 coords None None
    (match k with Story => tagList | _ => None end)
    (match k with Place => tagList | _ => None end)
    (match k with Initiative => tagList | _ => None end).

Definition empty_db : db := mkDb [] [] [] [] [] [] [].

Definition tag_t1_db : db :=
  mkDb [] [] [] [mkTag "T1" "t1" "Nature" None] [] [] [].

Definition forest_walk (tagList : list string) : item :=
  mkItem "e1" "stories"
    (fields_with Story "Forest Walk" (Some "52.01, 4.35") None None (Some tagList)).

(** A request passes the two checks of [POST] (headers present and
    non-empty; signature verified when a secret is configured). *)
Definition authenticated (hmac : string -> string -> string)
  (env : webhookEnv) (nowMs : Z) (req : request) : bool :=
  match x_webflow_timestamp req, x_webflow_signature req with
  | Some ts, Some sg =>
      truthy (Some ts) && truthy (Some sg)
      && (negb (truthy (WEBFLOW_WEBHOOK_SECRET env))
          || verifySignature hmac nowMs ts (bodyText req) sg
               (match WEBFLOW_WEBHOOK_SECRET env with
                | Some s => s | None => EmptyString end))
  | _, _ => false
  end.

(** A store-independent choice of HMAC for concrete runs. *)
Definition hmac_fixed : string -> string -> string := fun _ _ => "abcd".

Definition bad_combined_fields : fieldData :=
  fields_with Story "Forest Walk" (Some "not-a-number, 4.3")
    (Some (SStr "52.01")) (Some (SStr "4.35")) None.

Definition env_no_secret : webhookEnv :=
  mkWebhookEnv None (Some "stories") None None None None None.

Definition req_no_headers : request :=
  mkRequest None None "{}" (Some "collection_item_changed")
    (mkItem "e1" "stories" bad_combined_fields).

Definition env_secret : webhookEnv :=
  mkWebhookEnv (Some "s3cret") (Some "stories") None None None None None.

(** A request 301 s old whose signature is the HMAC of the body. *)
Definition req_301s_old : request :=
  mkRequest (Some "1700000000000") (Some "abcd") "{}" (Some "collection_item_changed")
    (forest_walk ["t1"]).

Definition req_unknown_collection : request :=
  mkRequest None None "{}" (Some "collection_item_changed")
    (mkItem "e1" "not-configured" bad_combined_fields).

Definition req_odd_trigger : request :=
  mkRequest (Some "1") (Some "sig") "{}" (Some "some_future_trigger") (forest_walk ["t1"]).

Definition live_episode : item :=
  mkItem "e1" "stories"
    (fields_with Story "Forest Walk" (Some "52.01, 4.35") None None (Some [])).

(** A source that keeps answering an empty page with [total = 5]. *)
Definition empty_pages (_ : Z) : result (listResponse item) :=
  Ok (mkList [] (Some 5)).

(** A source that pages a fixed collection [L] consistently. *)
Definition pages_of {A} (L : list A) (offset : Z) : result (listResponse A) :=
  Ok (mkList (firstn (Z.to_nat limit) (skipn (Z.to_nat offset) L))
             (Some (Z.of_nat (length L)))).

(** The store after a full sync of the stories collection [[e1]], [e1]
    tagged with [t1]. *)
Definition tagged_e1_db : db :=
  fst (sync_loop Story "2026-01-01" [forest_walk ["t1"]] 0 tag_t1_db).

(** A place item [p1] with coordinates and the given tag list. *)
Definition cafe (tagList : list string) : item :=
  mkItem "p1" "places"
    (fields_with Place "Cafe" (Some "52.01, 4.35") None None (Some tagList)).

(** The store after a full sync of the places collection [[p1]], [p1]
    tagged with [t1]. *)
Definition tagged_p1_db : db :=
  fst (sync_loop Place "2026-01-01" [cafe ["t1"]] 0 tag_t1_db).

(** An item whose combined coordinate string does not parse and that has no
    discrete coordinates. *)
Definition no_coords_item : item :=
  mkItem "e2" "stories"
    (fields_with Story "Nowhere" (Some "not-a-number, 4.3") None None (Some ["t1"])).

Definition all_kinds_env : syncEnv :=
  mkSyncEnv (Some "stories") (Some "story-tags") None None None None.

Definition fetched_fixture (c : string) : result (list item) :=
  if String.eqb c "stories" then Ok [no_coords_item; forest_walk ["t1"]]
  else Ok [mkItem "t1" "story-tags" (fields_with Story "Nature" None None None None)].

(** A source whose stories collection cannot be fetched. *)
Definition fetched_stories_down (c : string) : result (list item) :=
  if String.eqb c "stories" then Err "Webflow API error: Service Unavailable"
  else fetched_fixture c.

(** A stored-looking podcast without a slug. *)
Definition podcast_a : podcast := mkPodcast "a" "a" (created_only "2026-01-01") [].

Example parseFloat_decimal : parseFloat "52.01" = Fin 5201 (-2).
Proof. reflexivity. Qed.

Example parseFloat_leading_ws : parseFloat " 4.35" = Fin 435 (-2).
Proof. reflexivity. Qed.

Example parseFloat_prefix : parseFloat "1e3xyz" = Fin 1 3.
Proof. reflexivity. Qed.

Example parseFloat_garbage : parseFloat "not-a-number" = NaN.
Proof. reflexivity. Qed.

Example parseInt_ms : parseInt "1700000000000" = Some 1700000000000.
Proof. reflexivity. Qed.

Example split_trim_check :
  map trim (split "," "52.01, 4.35") = ["52.01"; "4.35"].
Proof. reflexivity. Qed.

Example parseCoordinates_combined :
  parseCoordinates (fields_with Story "Forest Walk" (Some "52.01, 4.35") None None None)
  = Some (Fin 5201 (-2), Fin 435 (-2)).
Proof. reflexivity. Qed.

Example parseCoordinates_discrete :
  parseCoordinates (fields_with Story "x" None (Some (SStr "52")) (Some (SNum (Fin 4 0))) None)
  = Some (Fin 52 0, Fin 4 0).
Proof. reflexivity. Qed.

Example parseCoordinates_reject :
  parseCoordinates (fields_with Story "x" (Some "not-a-number, 4.3") None None None) = None.
Proof. reflexivity. Qed.

Example webhook_scenario :
  let (d1, r1) := upsertEntity Place (cafe ["t1"]) "2026-01-01" tag_t1_db in
  let (d2, r2) := upsertEntity Place (cafe []) "2026-01-02" d1 in
  let (d3, r3) := upsertEntity Story (forest_walk ["t1"]) "2026-01-01" tag_t1_db in
  r1 = Ok tt /\ r2 = Ok tt
  /\ map r_webflowItemId (places d1) = ["p1"]
  /\ map (fun r => c_latitude (r_cols r)) (places d1) = [Some (Fin 5201 (-2))]
  /\ placeTags d1 = [("T1-", "T1")]
  /\ map r_id (places d2) = ["T1-"] /\ placeTags d2 = [] /\ length (tags d2) = 1%nat
  /\ r3 = Err "SQLITE_ERROR: syntax error"
  /\ map r_webflowItemId (stories d3) = ["e1"] /\ storyTags d3 = [].
Proof. vm_compute. repeat split. Qed.

(* ------------------------------------------------------------------ *)
(** ** Authentication gate of [POST]                                   *)
(* ------------------------------------------------------------------ *)

Lemma POST_authenticated hmac env nowMs nowIso req d :
  authenticated hmac env nowMs req = true ->
  POST hmac env nowMs nowIso req d = route env nowIso req d.
Proof.
  unfold authenticated, POST.
  destruct (x_webflow_timestamp req) as [ts|]; [|discriminate].
  destruct (x_webflow_signature req) as [sg|]; [|discriminate].
  destruct (truthy (Some ts)), (truthy (Some sg)); simpl; try discriminate.
  destruct (WEBFLOW_WEBHOOK_SECRET env) as [sec|]; simpl; [|reflexivity].
  destruct (String.eqb sec EmptyString); simpl; [reflexivity|].
  intros H; rewrite H; reflexivity.
Qed.

Lemma POST_rejected hmac env nowMs nowIso req d :
  authenticated hmac env nowMs req = false ->
  exists b, POST hmac env nowMs nowIso req d = (d, Ok (Resp 401 b)).
Proof.
  unfold authenticated, POST, ret.
  destruct (x_webflow_timestamp req) as [ts|]; [|intros; eexists; reflexivity].
  destruct (x_webflow_signature req) as [sg|]; [|intros; eexists; reflexivity].
  destruct (truthy (Some ts)), (truthy (Some sg)); simpl;
    try (intros; eexists; reflexivity).
  destruct (WEBFLOW_WEBHOOK_SECRET env) as [sec|]; simpl; [|discriminate].
  destruct (String.eqb sec EmptyString); simpl; [discriminate|].
  intros H; rewrite H; simpl; eexists; reflexivity.
Qed.

Lemma route_status env nowIso req d :
  match snd (route env nowIso req d) with
  | Ok r => status r = 200 \/ status r = 500
  | Err _ => False
  end.
Proof.
  unfold route, catch, bind, ret.
  destruct (map_get _ _) as [ct|]; simpl; [|auto].
  destruct (apply ct (triggerType req) (payload req) nowIso d) as [d' [u|e]];
    simpl; auto.
Qed.

(* ================================================================== *)
(** * Claims                                                           *)
(* ================================================================== *)

(* ------------------------------------------------------------------ *)
(** ** C2: coordinate precedence                                       *)
(* ------------------------------------------------------------------ *)

(** When the combined field is present but unparseable, the sync parser
    returns what the discrete fields give. *)
Lemma parseCoordinates_fallthrough (fd : fieldData) :
  (match fd_location_coordinates fd with
   | Some s => if truthy (Some s) then parseCoordinatesShared s else None
   | None => None
   end) = None ->
  parseCoordinates fd =
  match fd_latitude_2 fd, fd_longitude_2 fd with
  | Some a, Some b =>
      let lat := parseFloat_strnum a in
      let lng := parseFloat_strnum b in
      if negb (isNaN lat) && negb (isNaN lng) then Some (lat, lng) else None
  | _, _ => None
  end.
Proof.
  unfold parseCoordinates, parseCoordinatesShared, parseFloat_strnum.
  destruct (fd_location_coordinates fd) as [s|]; [|reflexivity].
  destruct (truthy (Some s)); [|reflexivity].
  destruct (map trim (split "," s)) as [|p0 [|p1 [|]]]; try reflexivity.
  destruct (isNaN (parseFloat p0)), (isNaN (parseFloat p1)); simpl;
    try reflexivity; discriminate.
Qed.

(** C2 (code_bug): with [location-coordinates = "not-a-number, 4.3"] and
    valid [latitude-2]/[longitude-2], the sync [parseCoordinates] accepts
    the item with the discrete values and the webhook upsert persists it,
    while the sibling [transformEpisode] of the read path rejects it. *)
Lemma C2_bad_combined_falls_back :
  parseCoordinates bad_combined_fields = Some (Fin 5201 (-2), Fin 435 (-2))
  /\ transformEpisodeCoords bad_combined_fields = None
  /\ map (fun r => (r_webflowItemId r, c_latitude (r_cols r)))
       (stories (fst (upsertEntity Story (mkItem "e1" "stories" bad_combined_fields)
                        "2026-01-01" empty_db)))
     = [("e1", Some (Fin 5201 (-2)))].
Proof. vm_compute. repeat split. Qed.

(* ------------------------------------------------------------------ *)
(** ** C4: no secret configured                                        *)
(* ------------------------------------------------------------------ *)

(** C4 counterexample: with no secret configured, a request without the
    timestamp and signature headers is rejected with 401. *)
Lemma C4_no_secret_missing_headers_401 :
  POST hmac_fixed env_no_secret 0 "2026-01-01" req_no_headers empty_db
  = (empty_db, Ok (Resp 401 "Missing signature headers")).
Proof. reflexivity. Qed.

(** C4 (amended): with no secret configured (absent or empty), a request
    that carries both headers with non-empty values is never rejected with
    401: it goes straight to routing, whose only statuses are 200 and 500;
    a request missing either header, or with an empty one, is rejected with
    401 and the store untouched. *)
Theorem C4_no_secret_headers_present_routed hmac env nowMs nowIso req d :
  truthy (WEBFLOW_WEBHOOK_SECRET env) = false ->
  (headers_present req = true ->
   POST hmac env nowMs nowIso req d = route env nowIso req d
   /\ match snd (POST hmac env nowMs nowIso req d) with
      | Ok r => status r <> 401
      | Err _ => False
      end)
  /\ (headers_present req = false ->
      POST hmac env nowMs nowIso req d = (d, Ok (Resp 401 "Missing signature headers"))).
Proof.
  intros Hsec. unfold headers_present. split.
  - destruct (x_webflow_timestamp req) as [ts|] eqn:Hts; [|discriminate].
    destruct (x_webflow_signature req) as [sg|] eqn:Hsg; [|discriminate].
    intros Hh. apply andb_true_iff in Hh as [Ht Hs].
    assert (Ha : authenticated hmac env nowMs req = true).
    { unfold authenticated. rewrite Hts, Hsg, Ht, Hs, Hsec. reflexivity. }
    rewrite (POST_authenticated _ _ _ _ _ _ Ha). split; [reflexivity|].
    pose proof (route_status env nowIso req d) as H.
    destruct (snd (route env nowIso req d)); [lia|exact H].
  - unfold POST, ret.
    destruct (x_webflow_timestamp req) as [ts|]; [|reflexivity].
    destruct (x_webflow_signature req) as [sg|]; [|reflexivity].
    intros Hh. apply andb_false_iff in Hh.
    destruct Hh as [Hh|Hh]; rewrite Hh; [reflexivity|].
    rewrite orb_true_r. reflexivity.
Qed.

Lemma C4_witness :
  truthy (WEBFLOW_WEBHOOK_SECRET env_no_secret) = false
  /\ headers_present (mkRequest (Some "1") (Some "sig") "{}" None (forest_walk [])) = true
  /\ headers_present req_no_headers = false
  /\ match snd (POST hmac_fixed env_no_secret 0 "now"
                 (mkRequest (Some "1") (Some "sig") "{}" None (forest_walk [])) empty_db) with
     | Ok r => status r <> 401
     | Err _ => False
     end
  /\ POST hmac_fixed env_no_secret 0 "now" req_no_headers empty_db
     = (empty_db, Ok (Resp 401 "Missing signature headers")).
Proof.
  assert (Hs : truthy (WEBFLOW_WEBHOOK_SECRET env_no_secret) = false) by reflexivity.
  assert (H1 : headers_present (mkRequest (Some "1") (Some "sig") "{}" None (forest_walk []))
               = true) by reflexivity.
  assert (H2 : headers_present req_no_headers = false) by reflexivity.
  split; [exact Hs|]. split; [exact H1|]. split; [exact H2|]. split.
  - exact (proj2 (proj1 (C4_no_secret_headers_present_routed hmac_fixed env_no_secret 0 "now"
             (mkRequest (Some "1") (Some "sig") "{}" None (forest_walk [])) empty_db Hs) H1)).
  - exact (proj2 (C4_no_secret_headers_present_routed hmac_fixed env_no_secret 0 "now"
             req_no_headers empty_db Hs) H2).
Defined.

(* ------------------------------------------------------------------ *)
(** ** C5: replay window                                               *)
(* ------------------------------------------------------------------ *)

(** C5: with a secret configured and both headers present, a request whose
    timestamp (milliseconds) is more than 300 seconds before [Date.now()]
    is answered 401 without touching the store, whatever its signature. *)
Theorem C5_stale_timestamp_rejected hmac env nowMs nowIso req d ts sg t :
  x_webflow_timestamp req = Some ts -> x_webflow_signature req = Some sg ->
  truthy (WEBFLOW_WEBHOOK_SECRET env) = true ->
  parseInt ts = Some t ->
  nowMs - t > 300000 ->
  exists b, POST hmac env nowMs nowIso req d = (d, Ok (Resp 401 b)).
Proof.
  intros Hts Hsg Hsec Hp Hold.
  apply POST_rejected.
  unfold authenticated, verifySignature, truthy in *. rewrite Hts, Hsg, Hp.
  destruct (WEBFLOW_WEBHOOK_SECRET env) as [sec|]; [|discriminate].
  destruct (String.eqb sec EmptyString); [discriminate|].
  assert (Hgt : (nowMs - t >? 300000) = true) by (apply Z.gtb_lt; lia).
  rewrite Hgt.
  destruct (String.eqb ts EmptyString), (String.eqb sg EmptyString); reflexivity.
Qed.

Lemma C5_witness :
  exists b, POST hmac_fixed env_secret 1700000301000 "now" req_301s_old tag_t1_db
            = (tag_t1_db, Ok (Resp 401 b)).
Proof.
  apply (C5_stale_timestamp_rejected hmac_fixed env_secret 1700000301000 "now"
           req_301s_old tag_t1_db "1700000000000" "abcd" 1700000000000);
    try reflexivity; lia.
Defined.

(* ------------------------------------------------------------------ *)
(** ** C9: unknown collection                                          *)
(* ------------------------------------------------------------------ *)

(** C9 counterexample: a payload for an unconfigured collection that comes
    without signature headers is answered 401, not 200. *)
Lemma C9_unknown_collection_unauthenticated_401 :
  map_get "not-configured" (collectionMap env_no_secret) = None
  /\ POST hmac_fixed env_no_secret 0 "now" req_unknown_collection empty_db
     = (empty_db, Ok (Resp 401 "Missing signature headers")).
Proof. split; reflexivity. Qed.

(** C9 (amended): for a payload whose collection id maps to no configured
    kind the store is never mutated; the answer is 200 when the request
    passes authentication, and 401 otherwise. *)
Theorem C9_unknown_collection_noop hmac env nowMs nowIso req d :
  map_get (it_collectionId (payload req)) (collectionMap env) = None ->
  fst (POST hmac env nowMs nowIso req d) = d
  /\ (authenticated hmac env nowMs req = true ->
      snd (POST hmac env nowMs nowIso req d) = Ok (Resp 200 "OK"))
  /\ (authenticated hmac env nowMs req = false ->
      exists b, snd (POST hmac env nowMs nowIso req d) = Ok (Resp 401 b)).
Proof.
  intros Hnone.
  destruct (authenticated hmac env nowMs req) eqn:Ha.
  - rewrite (POST_authenticated _ _ _ _ _ _ Ha).
    unfold route. rewrite Hnone.
    split; [reflexivity | split; [reflexivity | discriminate]].
  - destruct (POST_rejected hmac env nowMs nowIso req d Ha) as [b Hb].
    rewrite Hb. split; [reflexivity | split; [discriminate | intros _; exists b; reflexivity]].
Qed.

Lemma C9_witness :
  map_get "not-configured" (collectionMap env_secret) = None
  /\ fst (POST hmac_fixed env_secret 0 "now"
            (mkRequest (Some "0") (Some "abcd") "{}" None
               (mkItem "x" "not-configured" bad_combined_fields)) tag_t1_db) = tag_t1_db
  /\ (authenticated hmac_fixed env_secret 0
        (mkRequest (Some "0") (Some "abcd") "{}" None
           (mkItem "x" "not-configured" bad_combined_fields)) = true ->
      snd (POST hmac_fixed env_secret 0 "now"
             (mkRequest (Some "0") (Some "abcd") "{}" None
                (mkItem "x" "not-configured" bad_combined_fields)) tag_t1_db)
      = Ok (Resp 200 "OK"))
  /\ (authenticated hmac_fixed env_secret 0
        (mkRequest (Some "0") (Some "abcd") "{}" None
           (mkItem "x" "not-configured" bad_combined_fields)) = false ->
      exists b, snd (POST hmac_fixed env_secret 0 "now"
             (mkRequest (Some "0") (Some "abcd") "{}" None
                (mkItem "x" "not-configured" bad_combined_fields)) tag_t1_db)
      = Ok (Resp 401 b)).
Proof.
  split; [reflexivity|].
  apply (C9_unknown_collection_noop hmac_fixed env_secret 0 "now"
           (mkRequest (Some "0") (Some "abcd") "{}" None
              (mkItem "x" "not-configured" bad_combined_fields)) tag_t1_db).
  reflexivity.
Defined.

(* ------------------------------------------------------------------ *)
(** ** C10: the trigger-type discriminator                             *)
(* ------------------------------------------------------------------ *)

(** C10: for an authenticated request routed to a configured kind, the
    handler runs [apply] under its [try]; exactly the triggers
    [collection_item_deleted] and [collection_item_unpublished] select the
    delete path, and every other trigger value (absent or unrecognised
    included) runs the upsert of that kind. *)
Theorem C10_binary_trigger hmac env nowMs nowIso req d ct :
  authenticated hmac env nowMs req = true ->
  map_get (it_collectionId (payload req)) (collectionMap env) = Some ct ->
  POST hmac env nowMs nowIso req d
  = catch (apply ct (triggerType req) (payload req) nowIso ;;; ret (Resp 200 "OK"))
          (fun _ => ret (Resp 500 "Internal error")) d
  /\ (isDelete (triggerType req) = true <->
      triggerType req = Some "collection_item_deleted"
      \/ triggerType req = Some "collection_item_unpublished")
  /\ (isDelete (triggerType req) = true ->
      apply ct (triggerType req) (payload req) nowIso
      = match ct with
        | CTag => deleteTag (it_id (payload req))
        | CPodcast => deleteEntity Story (it_id (payload req))
        | CPlace => deleteEntity Place (it_id (payload req))
        | CInitiative => deleteEntity Initiative (it_id (payload req))
        end)
  /\ (isDelete (triggerType req) = false ->
      apply ct (triggerType req) (payload req) nowIso
      = match ct with
        | CTag => upsertTag (payload req)
        | CPodcast => upsertEntity Story (payload req) nowIso
        | CPlace => upsertEntity Place (payload req) nowIso
        | CInitiative => upsertEntity Initiative (payload req) nowIso
        end).
Proof.
  intros Ha Hct.
  split; [rewrite (POST_authenticated _ _ _ _ _ _ Ha); unfold route; rewrite Hct;
          reflexivity|].
  split; [|split; intros H; unfold apply; rewrite H; destruct ct; reflexivity].
  unfold isDelete. destruct (triggerType req) as [t|].
  - rewrite orb_true_iff, !String.eqb_eq. split.
    + intros [H|H]; subst; auto.
    + intros [H|H]; injection H; auto.
  - split; [discriminate|intros [H|H]; discriminate].
Qed.

Lemma C10_witness :
  authenticated hmac_fixed env_no_secret 0 req_odd_trigger = true
  /\ map_get (it_collectionId (payload req_odd_trigger)) (collectionMap env_no_secret)
     = Some CPodcast
  /\ fst (POST hmac_fixed env_no_secret 0 "now" req_odd_trigger tag_t1_db) <> tag_t1_db
  /\ (POST hmac_fixed env_no_secret 0 "now" req_odd_trigger tag_t1_db
      = catch (apply CPodcast (triggerType req_odd_trigger) (payload req_odd_trigger) "now"
               ;;; ret (Resp 200 "OK"))
              (fun _ => ret (Resp 500 "Internal error")) tag_t1_db
      /\ (isDelete (triggerType req_odd_trigger) = true <->
          triggerType req_odd_trigger = Some "collection_item_deleted"
          \/ triggerType req_odd_trigger = Some "collection_item_unpublished")
      /\ (isDelete (triggerType req_odd_trigger) = true ->
          apply CPodcast (triggerType req_odd_trigger) (payload req_odd_trigger) "now"
          = deleteEntity Story (it_id (payload req_odd_trigger)))
      /\ (isDelete (triggerType req_odd_trigger) = false ->
          apply CPodcast (triggerType req_odd_trigger) (payload req_odd_trigger) "now"
          = upsertEntity Story (payload req_odd_trigger) "now")).
Proof.
  split; [reflexivity|]. split; [reflexivity|].
  split; [vm_compute; discriminate|].
  apply (C10_binary_trigger hmac_fixed env_no_secret 0 "now" req_odd_trigger
           tag_t1_db CPodcast); reflexivity.
Defined.

(* ------------------------------------------------------------------ *)
(** ** C6: read fallback on an empty store                            *)
(* ------------------------------------------------------------------ *)

(** C6 (code_bug): when the store has no story and no story-tag row, the
    [/api/podcasts] [GET] answers the empty local result [[]] (its live
    fallback runs only when a query throws), whereas the sibling
    [getAllStories] of [src/lib/data.ts] falls back to the live fetch. *)
Theorem C6_empty_store_no_fallback getTime tagsParam d configured liveTags live :
  stories d = [] -> storyTags d = [] ->
  GET getTime tagsParam (Ok d) configured liveTags live = RJson []
  /\ getAllStories getTime (Ok d) configured liveTags live
     = getPodcastsFromWebflow getTime configured liveTags live None.
Proof.
  intros Hs Hj. split.
  - unfold GET, fetchFromDatabase. rewrite Hs, Hj.
    destruct (0 <? length _)%nat; reflexivity.
  - unfold getAllStories, getStoriesFromDb. rewrite Hs. reflexivity.
Qed.

Lemma C6_witness :
  getPodcastsFromWebflow (fun _ => Some 0) true [] (Ok [live_episode]) None <> Ok []
  /\ stories empty_db = [] /\ storyTags empty_db = []
  /\ GET (fun _ => Some 0) None (Ok empty_db) true [] (Ok [live_episode]) = RJson []
  /\ getAllStories (fun _ => Some 0) (Ok empty_db) true [] (Ok [live_episode])
     = getPodcastsFromWebflow (fun _ => Some 0) true [] (Ok [live_episode]) None.
Proof.
  split; [vm_compute; discriminate|].
  split; [reflexivity|]. split; [reflexivity|].
  apply (C6_empty_store_no_fallback (fun _ => Some 0) None empty_db true []
           (Ok [live_episode])); reflexivity.
Defined.

(* ------------------------------------------------------------------ *)
(** ** C7: pagination                                                  *)
(* ------------------------------------------------------------------ *)


Lemma firstn_firstn_skipn {A} (m k : nat) (L : list A) :
  (firstn m L ++ firstn k (skipn m L))%list = firstn (m + k) L.
Proof.
  revert L. induction m as [|m IH]; intros L; [reflexivity|].
  destruct L as [|x L']; simpl.
  - destruct k; reflexivity.
  - f_equal. apply IH.
Qed.

Lemma fetch_pages_of {A} (L : list A) (n : nat) : forall m : nat,
  (length L <= m + 100 * n)%nat ->
  fetch_loop (pages_of L) (Z.of_nat m) (firstn m L) (Ok L).
Proof.
  induction n as [|n IH]; intros m Hm;
    destruct (Nat.le_gt_cases (length L) (m + 100)) as [Hle|Hgt].
  2: lia.
  1, 2:
    replace (Ok L) with
      (Ok (firstn m L ++ lr_items (mkList (firstn (Z.to_nat limit) (skipn m L))
                                   (Some (Z.of_nat (length L)))))%list : result (list A));
    [ eapply fetch_stop;
      [ unfold pages_of; rewrite Nat2Z.id; reflexivity
      | cbn [lr_total lr_items]; rewrite firstn_firstn_skipn, length_firstn;
        apply Z.geb_le; change (Z.to_nat limit) with 100%nat; lia ]
    | cbn [lr_items]; rewrite firstn_firstn_skipn, firstn_all2; [reflexivity|];
      change (Z.to_nat limit) with 100%nat; simpl; lia ].
  eapply fetch_next.
  - unfold pages_of. rewrite Nat2Z.id. reflexivity.
  - reflexivity.
  - cbn [lr_items]. rewrite firstn_firstn_skipn, length_firstn.
    rewrite Z.geb_leb; apply Z.leb_gt. change (Z.to_nat limit) with 100%nat. lia.
  - cbn [lr_items]. rewrite firstn_firstn_skipn.
    replace (Z.of_nat m + limit) with (Z.of_nat (m + Z.to_nat limit)) by
      (unfold limit; lia).
    apply IH. change (Z.to_nat limit) with 100%nat. lia.
Qed.



(* ------------------------------------------------------------------ *)
(** ** Store lemmas                                                    *)
(* ------------------------------------------------------------------ *)

Lemma bind_ok {A B} (c : M A) (f : A -> M B) d d' a :
  c d = (d', Ok a) -> bind c f d = f a d'.
Proof. intros H. unfold bind. rewrite H. reflexivity. Qed.

Lemma jtable_set_jtable k j d : jtable k (set_jtable k j d) = j.
Proof. destruct k, d; reflexivity. Qed.

Lemma jtable_set_jtable_other k k' j d :
  k' <> k -> jtable k' (set_jtable k j d) = jtable k' d.
Proof. destruct k, k', d; intros H; try reflexivity; contradiction H; reflexivity. Qed.

Lemma table_set_jtable k k' j d : table k' (set_jtable k j d) = table k' d.
Proof. destruct k, k', d; reflexivity. Qed.

Lemma tags_set_jtable k j d : tags (set_jtable k j d) = tags d.
Proof. destruct k, d; reflexivity. Qed.

Lemma set_jtable_twice k j j' d : set_jtable k j (set_jtable k j' d) = set_jtable k j d.
Proof. destruct k, d; reflexivity. Qed.

Lemma table_set_table k t d : table k (set_table k t d) = t.
Proof. destruct k, d; reflexivity. Qed.

Lemma table_set_table_other k k' t d :
  k' <> k -> table k' (set_table k t d) = table k' d.
Proof. destruct k, k', d; intros H; try reflexivity; contradiction H; reflexivity. Qed.

Lemma jtable_set_table k k' t d : jtable k' (set_table k t d) = jtable k' d.
Proof. destruct k, k', d; reflexivity. Qed.

Lemma tags_set_table k t d : tags (set_table k t d) = tags d.
Proof. destruct k, d; reflexivity. Qed.

Lemma string_length_append (s t : string) :
  String.length (s ++ t) = (String.length s + String.length t)%nat.
Proof. induction s as [|c s IH]; simpl; [reflexivity|]. rewrite IH. reflexivity. Qed.

Lemma concat_length_ge (x : string) (l : list string) :
  In x l -> (String.length x <= String.length (String.concat EmptyString l))%nat.
Proof.
  induction l as [|y l IH]; intros Hin; [destruct Hin|].
  destruct Hin as [<-|Hin].
  - destruct l as [|z l]; [simpl; lia|].
    change (String.concat EmptyString (y :: z :: l))
      with (y ++ EmptyString ++ String.concat EmptyString (z :: l)).
    rewrite !string_length_append. lia.
  - destruct l as [|z l]; [destruct Hin|].
    specialize (IH Hin). change (String.concat EmptyString (y :: z :: l))
      with (y ++ EmptyString ++ String.concat EmptyString (z :: l)).
    rewrite !string_length_append. lia.
Qed.

(** [randomUUID] never returns an identifier already in the store. *)
Lemma fresh_id_fresh (d : db) (x : string) :
  In x (all_ids d) -> String.eqb x (fresh_id d) = false.
Proof.
  intros Hin. apply String.eqb_neq. intros Heq.
  pose proof (concat_length_ge x (all_ids d) Hin) as Hle.
  assert (Hlen : String.length (fresh_id d)
                 = S (String.length (String.concat EmptyString (all_ids d)))).
  { unfold fresh_id. rewrite string_length_append. simpl. lia. }
  rewrite <- Heq in Hlen. lia.
Qed.

Lemma table_ids_in_all_ids k d r :
  In r (table k d) -> In (r_id r) (all_ids d).
Proof.
  intros Hin. unfold all_ids. destruct k; simpl in Hin;
    repeat rewrite in_app_iff; [left|right; left|right; right; left];
    apply in_map; exact Hin.
Qed.

(** The loop of [sync*TagJunction] appends one row per resolved tag. *)
Lemma for_each_link_tag k eid (wids : list string) : forall d,
  NoDup (resolveTags (tags d) wids) ->
  (forall t, In t (resolveTags (tags d) wids) ->
             existsb (jrow_eqb (eid, t)) (jtable k d) = false) ->
  for_each wids (link_tag k eid) d
  = (set_jtable k (jtable k d ++ map (pair eid) (resolveTags (tags d) wids))%list d,
     Ok tt).
Proof.
  induction wids as [|w ws IH]; intros d Hnd Hfree.
  - simpl. rewrite app_nil_r. destruct k, d; reflexivity.
  - cbn [for_each resolveTags]. simpl in Hnd, Hfree.
    destruct (find (fun t => String.eqb (t_webflowItemId t) w) (tags d)) as [t|] eqn:Hf.
    + erewrite bind_ok.
      2:{ unfold link_tag. erewrite bind_ok.
          2:{ unfold select_tag_id_by_wid. rewrite Hf. reflexivity. }
          unfold insert_junction. cbn [option_map]. rewrite (Hfree (t_id t) (or_introl eq_refl)).
          reflexivity. }
      inversion Hnd as [|x l Hnotin Hnd']; subst.
      rewrite IH.
      * rewrite set_jtable_twice, jtable_set_jtable, tags_set_jtable, <- app_assoc.
        reflexivity.
      * rewrite tags_set_jtable. exact Hnd'.
      * rewrite tags_set_jtable, jtable_set_jtable. intros t' Hin'.
        rewrite existsb_app, (Hfree t' (or_intror Hin')). simpl.
        unfold jrow_eqb. simpl. rewrite String.eqb_refl. simpl.
        destruct (String.eqb t' (t_id t)) eqn:E; [|reflexivity].
        apply String.eqb_eq in E. subst. contradiction.
    + erewrite bind_ok.
      2:{ unfold link_tag. erewrite bind_ok.
          2:{ unfold select_tag_id_by_wid. rewrite Hf. reflexivity. }
          reflexivity. }
      apply IH; assumption.
Qed.

(** The effect of [sync*TagJunction]: the rows of [eid] are replaced by one
    row per resolved tag, the other rows kept. *)
Lemma syncTagJunction_spec k eid wids d :
  NoDup (resolveTags (tags d) wids) ->
  syncTagJunction k eid wids d
  = (set_jtable k (junction_others eid (jtable k d)
                   ++ map (pair eid) (resolveTags (tags d) wids))%list d, Ok tt).
Proof.
  intros Hnd. unfold syncTagJunction. erewrite bind_ok by reflexivity.
  rewrite for_each_link_tag.
  - rewrite set_jtable_twice, jtable_set_jtable, tags_set_jtable. reflexivity.
  - rewrite tags_set_jtable. exact Hnd.
  - intros t _. rewrite jtable_set_jtable. unfold junction_others.
    apply not_true_iff_false. intros Hex. apply existsb_exists in Hex.
    destruct Hex as [j [Hin Heq]]. apply filter_In in Hin. destruct Hin as [_ Hne].
    unfold jrow_eqb in Heq. simpl in Heq. apply andb_true_iff in Heq.
    destruct Heq as [Heq _]. apply String.eqb_eq in Heq. rewrite <- Heq in Hne.
    rewrite String.eqb_refl in Hne. discriminate Hne.
Qed.

Lemma find_app {A} (f : A -> bool) (l l' : list A) :
  find f (l ++ l')%list = match find f l with Some x => Some x | None => find f l' end.
Proof. induction l as [|x l IH]; simpl; [reflexivity|]. destruct (f x); [reflexivity|exact IH]. Qed.

Lemma updated_wid wid p r : r_webflowItemId (updated wid p r) = r_webflowItemId r.
Proof. unfold updated. destruct (String.eqb _ _); reflexivity. Qed.

Lemma updated_id wid p r : r_id (updated wid p r) = r_id r.
Proof. unfold updated. destruct (String.eqb _ _); reflexivity. Qed.

Lemma find_map_updated wid p w (l : list row) :
  option_map r_id (find (fun r => String.eqb (r_webflowItemId r) w) (map (updated wid p) l))
  = option_map r_id (find (fun r => String.eqb (r_webflowItemId r) w) l).
Proof.
  induction l as [|r l IH]; simpl; [reflexivity|].
  rewrite updated_wid. destruct (String.eqb (r_webflowItemId r) w).
  - simpl. rewrite updated_id. reflexivity.
  - exact IH.
Qed.

Lemma write_entity_update k wid fd coords now d r0 :
  find (fun r => String.eqb (r_webflowItemId r) wid) (table k d) = Some r0 ->
  write_entity k wid fd coords now d
  = (set_table k (map (updated wid (entity_patch k fd coords now)) (table k d)) d,
     Ok (r_id r0)).
Proof.
  intros Hf. unfold write_entity. erewrite bind_ok.
  2:{ unfold select_id_by_wid. rewrite Hf. reflexivity. }
  cbn [option_map]. erewrite bind_ok by reflexivity. reflexivity.
Qed.

Lemma write_entity_insert k wid fd coords now d :
  find (fun r => String.eqb (r_webflowItemId r) wid) (table k d) = None ->
  write_entity k wid fd coords now d
  = (set_table k (table k d ++ [mkRow (fresh_id d) wid (entity_values k fd coords now)])%list d,
     Ok (fresh_id d)).
Proof.
  intros Hf. unfold write_entity. erewrite bind_ok.
  2:{ unfold select_id_by_wid. rewrite Hf. reflexivity. }
  cbn [option_map]. erewrite bind_ok by reflexivity.
  erewrite bind_ok; [reflexivity|].
  unfold insert_row. cbn [r_id r_webflowItemId r_cols].
  replace (existsb _ (table k d)) with false.
  - destruct k, coords; reflexivity.
  - symmetry. apply not_true_iff_false. intros Hex. apply existsb_exists in Hex.
    destruct Hex as [x [Hin Hx]]. apply orb_true_iff in Hx.
    rewrite (fresh_id_fresh d (r_id x) (table_ids_in_all_ids k d x Hin)) in Hx.
    rewrite (find_none _ _ Hf x Hin) in Hx.
    destruct Hx as [Hx|Hx]; discriminate Hx.
Qed.

(** What the lookup-then-write leaves: the row of [wid] has the returned
    id (the existing one when there was a row), and only table [k] moves. *)
Lemma write_entity_ok k wid fd coords now d :
  exists eid dw,
    write_entity k wid fd coords now d = (dw, Ok eid)
    /\ local_id k wid dw = Some eid
    /\ (forall e, local_id k wid d = Some e -> eid = e)
    /\ (forall k', jtable k' dw = jtable k' d) /\ tags dw = tags d
    /\ (forall k', k' <> k -> table k' dw = table k' d).
Proof.
  destruct (find (fun r => String.eqb (r_webflowItemId r) wid) (table k d)) as [r0|] eqn:Hf.
  - exists (r_id r0). eexists. split; [apply write_entity_update; exact Hf|].
    unfold local_id. rewrite table_set_table, find_map_updated, Hf.
    split; [reflexivity|]. split; [intros e He; injection He; auto|].
    split; [intros k'; apply jtable_set_table|]. split; [apply tags_set_table|].
    intros k' Hk. apply table_set_table_other. exact Hk.
  - exists (fresh_id d). eexists. split; [apply write_entity_insert; exact Hf|].
    unfold local_id. rewrite table_set_table, find_app, Hf. simpl.
    rewrite String.eqb_refl. split; [reflexivity|].
    split; [intros e He; discriminate He|].
    split; [intros k'; apply jtable_set_table|]. split; [apply tags_set_table|].
    intros k' Hk. apply table_set_table_other. exact Hk.
Qed.

(** Outside stories the webhook's junction helpers are those of the
    reconciliation job. *)
Lemma webhook_syncTagJunction_other k eid wids :
  k <> Story -> webhook_syncTagJunction k eid wids = syncTagJunction k eid wids.
Proof. intros Hk. destruct k; [contradiction|reflexivity|reflexivity]. Qed.

(** A webhook upsert of a story that has coordinates: the row is written,
    then the junction delete throws; the junction rows stay as they were. *)
Lemma upsertEntity_story p now d coords :
  parseCoordinates (it_fieldData p) = Some coords ->
  exists eid dw,
    write_entity Story (it_id p) (it_fieldData p) coords now d = (dw, Ok eid)
    /\ upsertEntity Story p now d = (dw, Err "SQLITE_ERROR: syntax error").
Proof.
  intros Hc.
  destruct (write_entity_ok Story (it_id p) (it_fieldData p) coords now d)
    as (eid & dw & Hw & _).
  exists eid, dw. split; [exact Hw|].
  unfold upsertEntity. cbv zeta. rewrite Hc. erewrite bind_ok by exact Hw.
  reflexivity.
Qed.

(** The effect of a webhook upsert of a place or an initiative that has
    coordinates. *)
Lemma upsertEntity_ok k p now d coords :
  k <> Story ->
  parseCoordinates (it_fieldData p) = Some coords ->
  NoDup (resolveTags (tags d) (tagIds k (it_fieldData p))) ->
  exists eid dw,
    write_entity k (it_id p) (it_fieldData p) coords now d = (dw, Ok eid)
    /\ upsertEntity k p now d
       = (set_jtable k (junction_others eid (jtable k d)
            ++ map (pair eid) (resolveTags (tags d) (tagIds k (it_fieldData p))))%list dw,
          Ok tt)
    /\ local_id k (it_id p) dw = Some eid
    /\ (forall e, local_id k (it_id p) d = Some e -> eid = e)
    /\ (forall k', jtable k' dw = jtable k' d) /\ tags dw = tags d
    /\ (forall k', k' <> k -> table k' dw = table k' d).
Proof.
  intros Hk Hc Hnd.
  destruct (write_entity_ok k (it_id p) (it_fieldData p) coords now d)
    as (eid & dw & Hw & Hid & Hsame & Hj & Ht & Hother).
  exists eid, dw. split; [exact Hw|]. split; [|auto].
  unfold upsertEntity. cbv zeta. rewrite Hc. erewrite bind_ok by exact Hw.
  rewrite (webhook_syncTagJunction_other k eid _ Hk).
  rewrite syncTagJunction_spec; [rewrite Ht, Hj; reflexivity|rewrite Ht; exact Hnd].
Qed.

Lemma NoDup_map_inj {A B} (f : A -> B) (l : list A) x y :
  NoDup (map f l) -> In x l -> In y l -> f x = f y -> x = y.
Proof.
  induction l as [|a l IH]; intros Hnd Hx Hy Hf; [destruct Hx|].
  simpl in Hnd. inversion Hnd as [|b l' Hnotin Hnd']; subst.
  destruct Hx as [<-|Hx], Hy as [<-|Hy]; auto.
  - exfalso. apply Hnotin. rewrite Hf. apply in_map. exact Hy.
  - exfalso. apply Hnotin. rewrite <- Hf. apply in_map. exact Hx.
Qed.

Lemma In_resolveTags ts ws x :
  In x (resolveTags ts ws) ->
  exists w t, In w ws /\ find (fun t => String.eqb (t_webflowItemId t) w) ts = Some t
              /\ t_id t = x.
Proof.
  induction ws as [|w ws IH]; simpl; [intros []|].
  destruct (find (fun t => String.eqb (t_webflowItemId t) w) ts) as [t|] eqn:Hf.
  - intros [<-|Hin].
    + exists w, t. auto.
    + destruct (IH Hin) as (w' & t' & ? & ? & ?). exists w', t'. auto.
  - intros Hin. destruct (IH Hin) as (w' & t' & ? & ? & ?). exists w', t'. auto.
Qed.

(** Distinct incoming webflow ids and distinct tag ids resolve to distinct
    tag ids. *)
Lemma resolveTags_NoDup ts ws :
  NoDup ws -> NoDup (map t_id ts) -> NoDup (resolveTags ts ws).
Proof.
  intros Hws Hts. induction Hws as [|w ws Hnotin Hws IH]; simpl; [constructor|].
  destruct (find (fun t => String.eqb (t_webflowItemId t) w) ts) as [t|] eqn:Hf;
    [|exact IH].
  constructor; [|exact IH].
  intros Hin. destruct (In_resolveTags ts ws _ Hin) as (w' & t' & Hw' & Hf' & Hid).
  apply find_some in Hf as [Hin_t Ht]. apply find_some in Hf' as [Hin_t' Ht'].
  assert (t' = t) as -> by (apply (NoDup_map_inj t_id ts); auto).
  apply String.eqb_eq in Ht, Ht'. apply Hnotin. rewrite <- Ht, Ht'. exact Hw'.
Qed.

Lemma junction_of_replaced eid (j : list jrow) (R : list string) :
  junction_of eid (junction_others eid j ++ map (pair eid) R)%list = map (pair eid) R.
Proof.
  unfold junction_of, junction_others. rewrite filter_app.
  replace (filter _ (filter _ j)) with (@nil jrow).
  - simpl. induction R as [|t R IH]; simpl; [reflexivity|].
    rewrite String.eqb_refl. f_equal. exact IH.
  - induction j as [|x j IH]; simpl; [reflexivity|].
    destruct (String.eqb (fst x) eid) eqn:E; simpl; [exact IH|].
    rewrite E. exact IH.
Qed.

Lemma junction_others_replaced eid (j : list jrow) (R : list string) :
  junction_others eid (junction_others eid j ++ map (pair eid) R)%list
  = junction_others eid j.
Proof.
  unfold junction_others. rewrite filter_app.
  replace (filter _ (map (pair eid) R)) with (@nil jrow).
  - rewrite app_nil_r. induction j as [|x j IH]; simpl; [reflexivity|].
    destruct (String.eqb (fst x) eid) eqn:E; simpl; [exact IH|].
    rewrite E. simpl. f_equal. exact IH.
  - induction R as [|t R IH]; simpl; [reflexivity|].
    rewrite String.eqb_refl. exact IH.
Qed.

Lemma local_id_set_jtable k k' wid j d :
  local_id k' wid (set_jtable k j d) = local_id k' wid d.
Proof. unfold local_id. rewrite table_set_jtable. reflexivity. Qed.

(* ------------------------------------------------------------------ *)
(** ** C1: junction replacement                                        *)
(* ------------------------------------------------------------------ *)

(** C1 (code bug): with an empty incoming tag list the reconciliation
    loop keeps the old junction row of a story and of a place (it syncs the
    junction only when the list is non-empty), while the webhook upsert of
    the same place, through [syncPlaceTagJunction], clears it; the webhook
    upsert of the story writes the row and then fails in its junction delete,
    so the old row stays there too. *)
Lemma C1_reconcile_empty_tags_keeps_junction :
  storyTags tagged_e1_db = [("T1-", "T1")]
  /\ tagIds Story (it_fieldData (forest_walk [])) = []
  /\ storyTags (fst (syncKind Story (Ok [forest_walk []]) "2026-01-02" tagged_e1_db))
     = [("T1-", "T1")]
  /\ snd (upsertEntity Story (forest_walk []) "2026-01-02" tagged_e1_db)
     = Err "SQLITE_ERROR: syntax error"
  /\ storyTags (fst (upsertEntity Story (forest_walk []) "2026-01-02" tagged_e1_db))
     = [("T1-", "T1")]
  /\ placeTags tagged_p1_db = [("T1-", "T1")]
  /\ tagIds Place (it_fieldData (cafe [])) = []
  /\ placeTags (fst (syncKind Place (Ok [cafe []]) "2026-01-02" tagged_p1_db))
     = [("T1-", "T1")]
  /\ snd (upsertEntity Place (cafe []) "2026-01-02" tagged_p1_db) = Ok tt
  /\ placeTags (fst (upsertEntity Place (cafe []) "2026-01-02" tagged_p1_db)) = [].
Proof. vm_compute. repeat split. Qed.



(* ------------------------------------------------------------------ *)
(** ** Lemmas on repeated writes                                       *)
(* ------------------------------------------------------------------ *)

Lemma kind_eq_dec (a b : kind) : {a = b} + {a <> b}.
Proof. decide equality. Defined.

Lemma pick_idem {A} (a b : option A) : pick a (pick a b) = pick a b.
Proof. destruct a; reflexivity. Qed.

Lemma pick_None {A} (a : option A) : pick a None = a.
Proof. destruct a; reflexivity. Qed.

(** Two patches of the same item differ only in [updatedAt]. *)
Lemma entity_patch_now k fd coords now1 now2 :
  entity_patch k fd coords now2 = set_updatedAt (entity_patch k fd coords now1) (Some now2).
Proof. destruct k, coords; reflexivity. Qed.

Lemma merge_again p c u :
  merge (set_updatedAt p (Some u)) (merge p c) = set_updatedAt (merge p c) (Some u).
Proof.
  destruct p, c. unfold merge, set_updatedAt. cbn [c_title c_slug c_description
    c_thumbnailUrl c_mainImageUrl c_youtubeLink c_buttonText c_spotifyLink
    c_publishedAt c_websiteUrl c_googlePlaylistUrl c_latitude c_longitude
    c_locationName c_createdAt c_updatedAt].
  rewrite !pick_idem. reflexivity.
Qed.

(** The inserted columns are the patch over a row holding only [createdAt]. *)
Lemma entity_values_merge k fd coords now :
  entity_values k fd coords now = merge (entity_patch k fd coords now) (created_only now).
Proof.
  destruct k, coords; unfold entity_values, merge, created_only; cbn;
    rewrite ?pick_None; reflexivity.
Qed.

Lemma rows_with_map (g : row -> row) w (l : list row) :
  (forall r, r_webflowItemId (g r) = r_webflowItemId r) ->
  length (rows_with w (map g l)) = length (rows_with w l).
Proof.
  intros Hg. unfold rows_with. induction l as [|r l IH]; simpl; [reflexivity|].
  rewrite Hg. destruct (String.eqb (r_webflowItemId r) w); simpl; rewrite IH; reflexivity.
Qed.

(** After a write, every row of [wid] carries the patch of that write. *)
Lemma write_entity_rows k wid fd coords now d dw eid :
  write_entity k wid fd coords now d = (dw, Ok eid) ->
  forall r, In r (table k dw) -> r_webflowItemId r = wid ->
  exists c, r_cols r = merge (entity_patch k fd coords now) c.
Proof.
  intros Hw r Hin Hr.
  destruct (find (fun r => String.eqb (r_webflowItemId r) wid) (table k d)) as [r0|] eqn:Hf.
  - rewrite write_entity_update with (r0 := r0) in Hw by exact Hf.
    injection Hw as <- _. rewrite table_set_table in Hin.
    apply in_map_iff in Hin. destruct Hin as [r' [<- Hin']].
    unfold updated in Hr |- *. destruct (String.eqb (r_webflowItemId r') wid) eqn:E.
    + exists (r_cols r'). reflexivity.
    + simpl in Hr. subst. rewrite String.eqb_refl in E. discriminate E.
  - rewrite write_entity_insert in Hw by exact Hf.
    injection Hw as <- _. rewrite table_set_table in Hin.
    apply in_app_iff in Hin. destruct Hin as [Hin|[<-|[]]].
    + pose proof (find_none _ _ Hf r Hin) as E. simpl in E.
      rewrite Hr, String.eqb_refl in E. discriminate E.
    + exists (created_only now). apply entity_values_merge.
Qed.

Lemma filter_find_none {A} (f : A -> bool) (l : list A) :
  find f l = None -> filter f l = [].
Proof.
  induction l as [|x l IH]; simpl; [reflexivity|].
  destruct (f x); [discriminate|exact IH].
Qed.

(** After a write, [wid] has exactly one row, given at most one before. *)
Lemma write_entity_one_row k wid fd coords now d dw eid :
  write_entity k wid fd coords now d = (dw, Ok eid) ->
  (length (rows_with wid (table k d)) <= 1)%nat ->
  length (rows_with wid (table k dw)) = 1%nat.
Proof.
  intros Hw Hle.
  destruct (find (fun r => String.eqb (r_webflowItemId r) wid) (table k d)) as [r0|] eqn:Hf.
  - rewrite write_entity_update with (r0 := r0) in Hw by exact Hf.
    injection Hw as <- _. rewrite table_set_table, rows_with_map by apply updated_wid.
    apply find_some in Hf as [Hin Hr].
    assert (In r0 (rows_with wid (table k d))) by (apply filter_In; auto).
    destruct (rows_with wid (table k d)) as [|x [|y l]]; simpl in *; [contradiction|reflexivity|lia].
  - rewrite write_entity_insert in Hw by exact Hf.
    injection Hw as <- _. rewrite table_set_table. unfold rows_with.
    rewrite filter_app. simpl. rewrite String.eqb_refl.
    rewrite (filter_find_none _ _ Hf). reflexivity.
Qed.

(** Two writes of the same item: after the second, [wid] still has exactly
    one row, with the id of the first, and that row differs from the one the
    first write left only in its [updatedAt]. *)
Lemma write_twice_rows k wid fd coords now1 now2 d dw1 e1 D1 dw2 e2 :
  write_entity k wid fd coords now1 d = (dw1, Ok e1) ->
  (length (rows_with wid (table k d)) <= 1)%nat ->
  table k D1 = table k dw1 ->
  write_entity k wid fd coords now2 D1 = (dw2, Ok e2) ->
  length (rows_with wid (table k dw2)) = 1%nat
  /\ local_id k wid dw2 = local_id k wid D1
  /\ table k dw2
     = map (fun r => if String.eqb (r_webflowItemId r) wid
                     then mkRow (r_id r) (r_webflowItemId r)
                            (set_updatedAt (r_cols r) (Some now2))
                     else r) (table k D1)
  /\ e2 = e1.
Proof.
  intros Hw1 Hle HtabD1 Hw2.
  destruct (write_entity_ok k wid fd coords now1 d) as (e1' & dw1' & Hw1' & Hid1 & _).
  rewrite Hw1 in Hw1'. injection Hw1' as <- <-.
  assert (HidD1 : local_id k wid D1 = Some e1)
    by (unfold local_id in *; rewrite HtabD1; exact Hid1).
  destruct (write_entity_ok k wid fd coords now2 D1) as (e2' & dw2' & Hw2' & _ & Hsame2 & _).
  rewrite Hw2 in Hw2'. injection Hw2' as <- <-.
  pose proof (Hsame2 e1 HidD1) as He.
  assert (Htab2 : table k dw2
                  = map (updated wid (entity_patch k fd coords now2)) (table k D1)).
  { unfold local_id in HidD1.
    destruct (find (fun r => String.eqb (r_webflowItemId r) wid) (table k D1))
      as [r0|] eqn:Hf; [|discriminate HidD1].
    rewrite write_entity_update with (r0 := r0) in Hw2 by exact Hf.
    injection Hw2 as <- _. apply table_set_table. }
  split; [|split; [|split; [|exact He]]].
  - rewrite Htab2, rows_with_map by apply updated_wid.
    rewrite HtabD1. exact (write_entity_one_row _ _ _ _ _ _ _ _ Hw1 Hle).
  - unfold local_id. rewrite Htab2, find_map_updated. reflexivity.
  - rewrite Htab2. apply map_ext_in. intros r Hin.
    unfold updated. destruct (String.eqb (r_webflowItemId r) wid) eqn:E;
      [|reflexivity].
    apply String.eqb_eq in E. rewrite HtabD1 in Hin.
    destruct (write_entity_rows _ _ _ _ _ _ _ _ Hw1 r Hin E) as [c Hcols].
    rewrite Hcols, (entity_patch_now k fd coords now1 now2), merge_again.
    reflexivity.
Qed.

(* ------------------------------------------------------------------ *)
(** ** C8: repeating an upsert                                         *)
(* ------------------------------------------------------------------ *)




(* ------------------------------------------------------------------ *)
(** ** Preservation of the coordinates invariant                       *)
(* ------------------------------------------------------------------ *)

Lemma pres_ret {A} (a : A) : preserves (ret a).
Proof. intros d H. exact H. Qed.

Lemma pres_err {A} (e : string) : preserves (fun d => (d, @Err A e)).
Proof. intros d H. exact H. Qed.

Lemma pres_bind {A B} (c : M A) (f : A -> M B) :
  preserves c -> (forall a, preserves (f a)) -> preserves (bind c f).
Proof.
  intros Hc Hf d H. unfold bind. specialize (Hc d H).
  destruct (c d) as [d' [a|e]]; [apply Hf|]; exact Hc.
Qed.

Lemma pres_for_each {A} (xs : list A) (body : A -> M unit) :
  (forall x, preserves (body x)) -> preserves (for_each xs body).
Proof.
  intros Hb. induction xs as [|x xs IH]; simpl; [apply pres_ret|].
  apply pres_bind; [apply Hb|intros _; exact IH].
Qed.

Lemma pres_catch {A} (c : M A) (h : string -> M A) :
  preserves c -> (forall e, preserves (h e)) -> preserves (catch c h).
Proof.
  intros Hc Hh d H. unfold catch. specialize (Hc d H).
  destruct (c d) as [d' [a|e]]; [exact Hc|apply Hh; exact Hc].
Qed.

(** An operation that leaves the three entity tables as they are. *)
Lemma pres_frame {A} (c : M A) :
  (forall d k, table k (fst (c d)) = table k d) -> preserves c.
Proof. intros Hf d H k. rewrite Hf. apply H. Qed.

Lemma inv_set_table k t d :
  coords_inv d -> forallb row_ok t = true -> coords_inv (set_table k t d).
Proof.
  intros H Ht k'. destruct (kind_eq_dec k' k) as [->|Hne].
  - rewrite table_set_table. exact Ht.
  - rewrite table_set_table_other by exact Hne. apply H.
Qed.

Lemma forallb_map_ok (f : row -> row) (l : list row) :
  (forall r, row_ok r = true -> row_ok (f r) = true) ->
  forallb row_ok l = true -> forallb row_ok (map f l) = true.
Proof.
  intros Hf. induction l as [|r l IH]; simpl; [reflexivity|].
  intros Hl. apply andb_true_iff in Hl as [Hr Hl].
  rewrite (Hf r Hr), (IH Hl). reflexivity.
Qed.

Lemma forallb_filter_ok (f : row -> bool) (l : list row) :
  forallb row_ok l = true -> forallb row_ok (filter f l) = true.
Proof.
  induction l as [|r l IH]; simpl; [reflexivity|].
  intros Hl. apply andb_true_iff in Hl as [Hr Hl].
  destruct (f r); simpl; [rewrite Hr|]; apply IH; exact Hl.
Qed.

Lemma table_set_tags k t d : table k (set_tags t d) = table k d.
Proof. destruct k, d; reflexivity. Qed.

Lemma pres_delete_junction k eid : preserves (delete_junction_by_entity k eid).
Proof. apply pres_frame. intros d k'. apply table_set_jtable. Qed.

Lemma pres_insert_junction k j : preserves (insert_junction k j).
Proof.
  apply pres_frame. intros d k'. unfold insert_junction.
  destruct (existsb _ _); [reflexivity|apply table_set_jtable].
Qed.

Lemma pres_webhook_delete_junction k eid :
  preserves (webhook_delete_junction_by_entity k eid).
Proof. destruct k; [apply pres_err|apply pres_delete_junction|apply pres_delete_junction]. Qed.

Lemma pres_webhook_syncTagJunction k eid wids :
  preserves (webhook_syncTagJunction k eid wids).
Proof.
  unfold webhook_syncTagJunction.
  apply pres_bind; [apply pres_webhook_delete_junction|intros _].
  apply pres_for_each. intros w. unfold link_tag.
  apply pres_bind; [apply pres_frame; reflexivity|intros [tid|]].
  - apply pres_insert_junction.
  - apply pres_ret.
Qed.

Lemma pres_syncTagJunction k eid wids : preserves (syncTagJunction k eid wids).
Proof.
  unfold syncTagJunction. apply pres_bind; [apply pres_delete_junction|intros _].
  apply pres_for_each. intros w. unfold link_tag.
  apply pres_bind; [apply pres_frame; reflexivity|intros [tid|]].
  - apply pres_insert_junction.
  - apply pres_ret.
Qed.

Lemma pres_delete_row k id : preserves (delete_row_by_id k id).
Proof.
  intros d H. apply inv_set_table; [exact H|]. apply forallb_filter_ok. apply H.
Qed.

Lemma pres_update k wid p :
  coord_ok (c_latitude p) = true -> coord_ok (c_longitude p) = true ->
  preserves (update_by_wid k wid p).
Proof.
  intros Hlat Hlng d H. apply inv_set_table; [exact H|].
  apply forallb_map_ok; [|apply H].
  intros r Hr. destruct (String.eqb (r_webflowItemId r) wid); [|exact Hr].
  unfold row_ok. cbn [r_cols]. unfold merge. cbn [c_latitude c_longitude].
  destruct (c_latitude p), (c_longitude p); try discriminate; simpl in Hlat, Hlng |- *.
  rewrite Hlat, Hlng. reflexivity.
Qed.

Lemma pres_insert k r : row_ok r = true -> preserves (insert_row k r).
Proof.
  intros Hr d H. unfold insert_row.
  destruct (existsb _ _); [exact H|].
  destruct (c_title (r_cols r)), (c_latitude (r_cols r)), (c_longitude (r_cols r));
    try exact H.
  apply inv_set_table; [exact H|]. rewrite forallb_app, (H k). simpl.
  rewrite Hr. reflexivity.
Qed.

(** [parseCoordinates] only accepts numbers. *)
Lemma parseCoordinates_numbers fd lat lng :
  parseCoordinates fd = Some (lat, lng) -> isNaN lat = false /\ isNaN lng = false.
Proof.
  unfold parseCoordinates.
  repeat (cbn beta iota zeta;
          match goal with
          | |- context [match ?x with _ => _ end] =>
              lazymatch x with
              | context [match _ with _ => _ end] => fail
              | _ => destruct x eqn:?
              end
          end);
    intros H; try discriminate H; injection H as <- <-;
    repeat match goal with
           | E : (negb _ && negb _)%bool = true |- _ =>
               apply andb_true_iff in E as [E1 E2]; apply negb_true_iff in E1, E2
           end; auto.
Qed.

Lemma pres_write_entity k wid fd lat lng now :
  isNaN lat = false -> isNaN lng = false ->
  preserves (write_entity k wid fd (lat, lng) now).
Proof.
  intros Hlat Hlng. unfold write_entity.
  apply pres_bind; [apply pres_frame; reflexivity|intros [eid|]].
  - apply pres_bind; [|intros _; apply pres_ret].
    apply pres_update; destruct k; simpl; rewrite ?Hlat, ?Hlng; reflexivity.
  - apply pres_bind; [apply pres_frame; reflexivity|intros eid].
    apply pres_bind; [|intros _; apply pres_ret].
    apply pres_insert. unfold row_ok. destruct k; simpl; rewrite Hlat, Hlng; reflexivity.
Qed.

Lemma pres_upsertEntity k p now : preserves (upsertEntity k p now).
Proof.
  unfold upsertEntity. cbv zeta.
  destruct (parseCoordinates (it_fieldData p)) as [[lat lng]|] eqn:Hc;
    [|apply pres_ret].
  destruct (parseCoordinates_numbers _ _ _ Hc) as [Hlat Hlng].
  apply pres_bind; [apply pres_write_entity; assumption|intros eid].
  apply pres_webhook_syncTagJunction.
Qed.

Lemma pres_deleteEntity k wid : preserves (deleteEntity k wid).
Proof.
  unfold deleteEntity.
  apply pres_bind; [apply pres_frame; reflexivity|intros [eid|]; [|apply pres_ret]].
  apply pres_bind; [apply pres_webhook_delete_junction|intros _; apply pres_delete_row].
Qed.

Lemma pres_upsertTag p : preserves (upsertTag p).
Proof.
  unfold upsertTag. cbv zeta.
  apply pres_bind; [apply pres_frame; reflexivity|intros [t|]].
  - apply pres_frame. intros d k. apply table_set_tags.
  - apply pres_bind; [apply pres_frame; reflexivity|intros id].
    apply pres_frame. intros d k. destruct (existsb _ _); [reflexivity|].
    apply table_set_tags.
Qed.

Lemma pres_deleteTag wid : preserves (deleteTag wid).
Proof.
  unfold deleteTag.
  apply pres_bind; [apply pres_frame; reflexivity|intros [tid|]; [|apply pres_ret]].
  apply pres_frame. intros d k. destruct k; reflexivity.
Qed.

Lemma pres_apply ct trigger p nowIso : preserves (apply ct trigger p nowIso).
Proof.
  destruct ct; simpl; destruct (isDelete trigger);
    first [apply pres_deleteTag | apply pres_upsertTag
          | apply pres_deleteEntity | apply pres_upsertEntity].
Qed.

Lemma pres_POST hmac env nowMs nowIso req : preserves (POST hmac env nowMs nowIso req).
Proof.
  assert (Hr : preserves (route env nowIso req)).
  { unfold route. cbv zeta. destruct (map_get _ _) as [ct|]; [|apply pres_ret].
    apply pres_catch; [|intros _; apply pres_ret].
    apply pres_bind; [apply pres_apply|intros _; apply pres_ret]. }
  unfold POST.
  destruct (x_webflow_timestamp req), (x_webflow_signature req); try apply pres_ret.
  destruct (_ || _)%bool; [apply pres_ret|].
  destruct (_ && _)%bool; [apply pres_ret|exact Hr].
Qed.

Lemma pres_sync_loop k now items : forall count, preserves (sync_loop k now items count).
Proof.
  induction items as [|it rest IH]; intros count; simpl; [apply pres_ret|].
  destruct (parseCoordinates (it_fieldData it)) as [[lat lng]|] eqn:Hc; [|apply IH].
  destruct (parseCoordinates_numbers _ _ _ Hc) as [Hlat Hlng].
  apply pres_bind; [apply pres_write_entity; assumption|intros eid].
  apply pres_bind; [|intros _; apply IH].
  destruct (0 <? _)%nat; [apply pres_syncTagJunction|apply pres_ret].
Qed.

Lemma pres_when_configured cid c :
  (forall s, preserves (c s)) -> preserves (when_configured cid c).
Proof.
  intros Hc. unfold when_configured. destruct cid as [s|]; [|apply pres_ret].
  destruct (truthy (Some s)); [|apply pres_ret].
  apply pres_bind; [apply Hc|intros n; apply pres_ret].
Qed.

Lemma pres_fullSync env fetched now : preserves (fullSync env fetched now).
Proof.
  assert (Ht : forall s, preserves (syncTagsFromCollection (fetched s))).
  { intros s. unfold syncTagsFromCollection. destruct (fetched s) as [items|e];
      [|apply pres_err].
    apply pres_bind; [|intros _; apply pres_ret].
    apply pres_for_each. apply pres_upsertTag. }
  assert (Hk : forall k s, preserves (syncKind k (fetched s) now)).
  { intros k s. unfold syncKind. destruct (fetched s) as [items|e];
      [apply pres_sync_loop|apply pres_err]. }
  unfold fullSync.
  repeat (apply pres_bind; [apply pres_when_configured; intros s; auto|intros ?]).
  apply pres_ret.
Qed.

(* ------------------------------------------------------------------ *)
(** ** C3: coordinates invariant                                       *)
(* ------------------------------------------------------------------ *)

(** C3: every entity row having numeric (non-null, non-NaN) latitude and
    longitude is kept by the webhook handler (upserts and deletes alike,
    whatever the outcome) and by the full reconciliation; an item whose
    coordinates do not parse is not written by the webhook upsert (the
    store is left as it is) and is skipped by the reconciliation loop,
    which goes on with the rest of the batch. *)
Theorem C3_coordinates_invariant :
  (forall hmac env nowMs nowIso req d,
     coords_inv d -> coords_inv (fst (POST hmac env nowMs nowIso req d)))
  /\ (forall env fetched now d,
        coords_inv d -> coords_inv (fst (fullSync env fetched now d)))
  /\ (forall k p now d,
        parseCoordinates (it_fieldData p) = None -> upsertEntity k p now d = (d, Ok tt))
  /\ (forall k now it rest count d,
        parseCoordinates (it_fieldData it) = None ->
        sync_loop k now (it :: rest) count d = sync_loop k now rest count d).
Proof.
  split; [|split; [|split]].
  - intros hmac env nowMs nowIso req. apply pres_POST.
  - intros env fetched now. apply pres_fullSync.
  - intros k p now d Hc. unfold upsertEntity. cbv zeta. rewrite Hc. reflexivity.
  - intros k now it rest count d Hc. simpl. rewrite Hc. reflexivity.
Qed.

Lemma C3_witness :
  coords_inv tagged_e1_db
  /\ coords_inv (fst (POST hmac_fixed env_no_secret 0 "2026-01-02" req_odd_trigger
                          tagged_e1_db))
  /\ coords_inv (fst (fullSync all_kinds_env fetched_fixture "2026-01-02" tagged_e1_db))
  /\ upsertEntity Story no_coords_item "2026-01-02" tagged_e1_db = (tagged_e1_db, Ok tt)
  /\ sync_loop Story "2026-01-02" (no_coords_item :: [forest_walk ["t1"]]) 0 tagged_e1_db
     = sync_loop Story "2026-01-02" [forest_walk ["t1"]] 0 tagged_e1_db.
Proof.
  destruct C3_coordinates_invariant as (Hpost & Hsync & Hup & Hloop).
  assert (Hinv : coords_inv tagged_e1_db) by (intros k; destruct k; vm_compute; reflexivity).
  split; [exact Hinv|].
  split; [apply Hpost; exact Hinv|].
  split; [apply Hsync; exact Hinv|].
  split; [apply Hup; reflexivity|].
  apply Hloop. reflexivity.
Defined.

(* ------------------------------------------------------------------ *)
(** ** Further properties of the code                                  *)
(* ------------------------------------------------------------------ *)

(** *** Signature verification *)

Lemma length_list_ascii_of_string (s : string) :
  length (list_ascii_of_string s) = String.length s.
Proof. induction s as [|c s IH]; simpl; [reflexivity|]. rewrite IH. reflexivity. Qed.

Lemma mismatch_acc_zero (a : list ascii) : forall b acc,
  length a = length b ->
  mismatch_acc a b acc = 0 <-> acc = 0 /\ a = b.
Proof.
  induction a as [|x a IH]; intros b acc Hlen; destruct b as [|y b];
    simpl in Hlen |- *; try discriminate Hlen.
  - split; [intros H; split; [exact H|reflexivity]|intros [H _]; exact H].
  - rewrite IH by lia. rewrite Z.lor_eq_0_iff, Z.lxor_eq_0_iff.
    split.
    + intros [[Hacc Hxy] Hab]. split; [exact Hacc|].
      apply Nat2Z.inj in Hxy.
      rewrite <- (ascii_nat_embedding x), <- (ascii_nat_embedding y), Hxy, Hab.
      reflexivity.
    + intros [Hacc Heq]. injection Heq as <- <-. tauto.
Qed.

(** The hand-written constant-time loop is exactly string equality. *)
Lemma ct_equal_spec (expected signature : string) :
  ct_equal expected signature = true <-> expected = signature.
Proof.
  unfold ct_equal.
  destruct (Nat.eqb (String.length expected) (String.length signature)) eqn:Hl;
    simpl.
  - apply Nat.eqb_eq in Hl. rewrite Z.eqb_eq, mismatch_acc_zero
      by (rewrite !length_list_ascii_of_string; exact Hl).
    split.
    + intros [_ H]. rewrite <- (string_of_list_ascii_of_string expected),
        <- (string_of_list_ascii_of_string signature), H. reflexivity.
    + intros <-. split; reflexivity.
  - split; [intros H; discriminate H|].
    intros <-. rewrite Nat.eqb_refl in Hl. discriminate Hl.
Qed.

Lemma truthy_Some (s : string) : truthy (Some s) = true <-> s <> EmptyString.
Proof.
  unfold truthy. rewrite negb_true_iff, <- not_true_iff_false, String.eqb_eq.
  reflexivity.
Qed.

(** X2: the comparison of [verifySignature] accepts exactly the expected
    signature: two strings of different lengths, or of equal length that
    differ at some character, are rejected. *)
Theorem X_ct_equal_iff_equal (expected signature : string) :
  ct_equal expected signature = true <-> expected = signature.
Proof. exact (ct_equal_spec expected signature). Qed.

(** X3: [verifySignature] accepts exactly when the three strings are
    non-empty, the timestamp is not more than five minutes old (a timestamp
    that [parseInt] cannot read skips this check) and the signature is the
    HMAC of [timestamp:body] under the secret. *)
Theorem X_verifySignature_iff hmac now timestamp bodyTxt signature secret :
  verifySignature hmac now timestamp bodyTxt signature secret = true
  <-> timestamp <> EmptyString /\ signature <> EmptyString /\ secret <> EmptyString
      /\ (forall requestTime, parseInt timestamp = Some requestTime ->
                              now - requestTime <= 300000)
      /\ signature = hmac secret (timestamp ++ ":" ++ bodyTxt).
Proof.
  unfold verifySignature.
  rewrite <- !truthy_Some.
  destruct (truthy (Some timestamp)), (truthy (Some signature)), (truthy (Some secret));
    simpl; try (split; [intros H; discriminate H|intros (H & H' & H'' & _); discriminate]).
  destruct (parseInt timestamp) as [t|] eqn:Hp; simpl.
  - destruct (now - t >? 300000) eqn:Ht; simpl.
    + split; [intros H; discriminate H|].
      intros (_ & _ & _ & Hf & _). specialize (Hf t eq_refl). apply Z.gtb_lt in Ht. lia.
    + rewrite ct_equal_spec. split.
      * intros <-. repeat split; try reflexivity.
        intros t' Ht'. injection Ht' as <-. rewrite Z.gtb_ltb in Ht.
        apply Z.ltb_ge in Ht. lia.
      * intros (_ & _ & _ & _ & ->). reflexivity.
  - rewrite ct_equal_spec. split.
    + intros <-. repeat split; try reflexivity. intros t' Ht'. discriminate Ht'.
    + intros (_ & _ & _ & _ & ->). reflexivity.
Qed.


(** *** Deletes and tag upserts *)

Lemma find_map_pres {A} (f : A -> bool) (g : A -> A) (l : list A) :
  (forall x, f (g x) = f x) -> find f (map g l) = option_map g (find f l).
Proof.
  intros Hg. induction l as [|x l IH]; simpl; [reflexivity|].
  rewrite Hg. destruct (f x); [reflexivity|exact IH].
Qed.

(** In a list whose keys [f] are unique, the element [x0] with key [w] is the
    only one with that key, so filtering on [f] and on the key of [x0] agree. *)
Lemma filter_unique_key {A} (f g : A -> string) (l : list A) (x0 : A) (w : string) :
  NoDup (map f l) -> NoDup (map g l) -> In x0 l -> g x0 = w ->
  filter (fun x => negb (String.eqb (f x) (f x0))) l
  = filter (fun x => negb (String.eqb (g x) w)) l.
Proof.
  intros Hf Hg Hin Hw. apply filter_ext_in. intros x Hx. f_equal.
  destruct (String.eqb (f x) (f x0)) eqn:E1, (String.eqb (g x) w) eqn:E2;
    try reflexivity.
  - apply String.eqb_eq in E1. rewrite (NoDup_map_inj f l x x0 Hf Hx Hin E1) in E2.
    rewrite Hw, String.eqb_refl in E2. discriminate E2.
  - apply String.eqb_eq in E2. rewrite <- Hw in E2.
    rewrite (NoDup_map_inj g l x x0 Hg Hx Hin E2), String.eqb_refl in E1.
    discriminate E1.
Qed.

(** X4: [deletePlace], [deleteInitiative]: on a table whose ids and
    external ids are unique, the row of [wid] goes, with the junction rows
    of its id; nothing else moves, and the delete never fails. *)
Theorem X_deleteEntity_spec k wid d :
  k <> Story ->
  NoDup (map r_id (table k d)) -> NoDup (map r_webflowItemId (table k d)) ->
  exists d',
    deleteEntity k wid d = (d', Ok tt)
    /\ table k d' = filter (fun r => negb (String.eqb (r_webflowItemId r) wid)) (table k d)
    /\ (forall eid, local_id k wid d = Some eid ->
                    jtable k d' = junction_others eid (jtable k d))
    /\ (local_id k wid d = None -> jtable k d' = jtable k d)
    /\ (forall k', k' <> k -> table k' d' = table k' d /\ jtable k' d' = jtable k' d)
    /\ tags d' = tags d.
Proof.
  intros Hk Hid Hwid. unfold local_id.
  destruct (find (fun r => String.eqb (r_webflowItemId r) wid) (table k d)) as [r0|] eqn:Hf.
  - destruct (find_some _ _ Hf) as [Hin0 Hw0]. apply String.eqb_eq in Hw0.
    unfold deleteEntity. erewrite bind_ok.
    2:{ unfold select_id_by_wid. rewrite Hf. reflexivity. }
    cbn [option_map].
    replace (webhook_delete_junction_by_entity k (r_id r0))
      with (delete_junction_by_entity k (r_id r0))
      by (destruct k; [contradiction|reflexivity|reflexivity]).
    erewrite bind_ok by reflexivity. unfold delete_row_by_id.
    eexists. split; [reflexivity|].
    rewrite table_set_table, table_set_jtable.
    split; [exact (filter_unique_key r_id r_webflowItemId _ r0 wid Hid Hwid Hin0 Hw0)|].
    split; [intros eid Heid; injection Heid as <-;
            rewrite jtable_set_table, jtable_set_jtable; reflexivity|].
    split; [intros H; discriminate H|].
    split; [|rewrite tags_set_table, tags_set_jtable; reflexivity].
    intros k' Hk'. rewrite table_set_table_other by exact Hk'.
    rewrite table_set_jtable, jtable_set_table, jtable_set_jtable_other by exact Hk'.
    split; reflexivity.
  - unfold deleteEntity. erewrite bind_ok.
    2:{ unfold select_id_by_wid. rewrite Hf. reflexivity. }
    eexists. split; [reflexivity|].
    split.
    + symmetry. rewrite <- (filter_true (table k d)) at 2. apply filter_ext_in.
      intros r Hr. rewrite (find_none _ _ Hf r Hr). reflexivity.
    + split; [intros eid H; discriminate H|].
      split; [reflexivity|]. split; [|reflexivity]. intros; split; reflexivity.
Qed.


(** X6: [deleteTag] with the [ON DELETE CASCADE] of the three junction tables:
    on a tag table with unique ids and external ids, the tag of [wid] goes,
    a junction row stays exactly when it does not point at that tag, the
    entity tables are untouched and the delete never fails. *)
Theorem X_deleteTag_cascade wid d :
  NoDup (map t_id (tags d)) -> NoDup (map t_webflowItemId (tags d)) ->
  exists d',
    deleteTag wid d = (d', Ok tt)
    /\ tags d' = filter (fun t => negb (String.eqb (t_webflowItemId t) wid)) (tags d)
    /\ (forall k j, In j (jtable k d') <->
          In j (jtable k d)
          /\ forall t, In t (tags d) -> t_webflowItemId t = wid -> snd j <> t_id t)
    /\ (forall k, table k d' = table k d).
Proof.
  intros Hid Hwid.
  destruct (find (fun t => String.eqb (t_webflowItemId t) wid) (tags d)) as [t0|] eqn:Hf.
  - destruct (find_some _ _ Hf) as [Hin0 Hw0]. apply String.eqb_eq in Hw0.
    unfold deleteTag. erewrite bind_ok.
    2:{ unfold select_tag_id_by_wid. rewrite Hf. reflexivity. }
    cbn [option_map]. eexists. split; [reflexivity|].
    split; [exact (filter_unique_key t_id t_webflowItemId _ t0 wid Hid Hwid Hin0 Hw0)|].
    split; [|intros k; destruct k; reflexivity].
    intros k j.
    assert (Hk : jtable k (mkDb (stories d) (places d) (initiatives d)
                  (filter (fun t => negb (String.eqb (t_id t) (t_id t0))) (tags d))
                  (filter (fun j => negb (String.eqb (snd j) (t_id t0))) (storyTags d))
                  (filter (fun j => negb (String.eqb (snd j) (t_id t0))) (placeTags d))
                  (filter (fun j => negb (String.eqb (snd j) (t_id t0))) (initiativeTags d)))
               = filter (fun j => negb (String.eqb (snd j) (t_id t0))) (jtable k d))
      by (destruct k; reflexivity).
    rewrite Hk, filter_In, negb_true_iff, <- not_true_iff_false, String.eqb_eq.
    split.
    + intros [Hj Hne]. split; [exact Hj|]. intros t Ht Htw Heq. apply Hne.
      rewrite Heq. f_equal. apply (NoDup_map_inj t_webflowItemId (tags d) t t0 Hwid Ht Hin0).
      congruence.
    + intros [Hj Hall]. split; [exact Hj|]. exact (Hall t0 Hin0 Hw0).
  - unfold deleteTag. erewrite bind_ok.
    2:{ unfold select_tag_id_by_wid. rewrite Hf. reflexivity. }
    eexists. split; [reflexivity|].
    split.
    + symmetry. rewrite <- (filter_true (tags d)) at 2. apply filter_ext_in.
      intros t Ht. rewrite (find_none _ _ Hf t Ht). reflexivity.
    + split; [|reflexivity]. intros k j. split; [|tauto].
      intros Hj. split; [exact Hj|]. intros t Ht Htw.
      pose proof (find_none _ _ Hf t Ht) as E. simpl in E.
      rewrite Htw, String.eqb_refl in E. discriminate E.
Qed.

Lemma tag_ids_in_all_ids d t : In t (tags d) -> In (t_id t) (all_ids d).
Proof.
  intros Hin. unfold all_ids. rewrite !in_app_iff. right; right; right.
  apply in_map. exact Hin.
Qed.

Lemma find_tag_pres (w : string) (g : tagrow -> tagrow) (l : list tagrow) :
  (forall t, t_webflowItemId (g t) = t_webflowItemId t) ->
  find (fun t => String.eqb (t_webflowItemId t) w) (map g l)
  = option_map g (find (fun t => String.eqb (t_webflowItemId t) w) l).
Proof. intros Hg. apply find_map_pres. intros t. rewrite Hg. reflexivity. Qed.

(** The effect of [upsertTag]: it never fails, the tag of the payload's id
    afterwards carries the payload's name, keeps its local id when it
    existed and its stored slug when the payload has none; no other table
    moves and no external id is lost. *)
Lemma upsertTag_ok p d :
  let fd := it_fieldData p in
  let old := find (fun t => String.eqb (t_webflowItemId t) (it_id p)) (tags d) in
  exists d',
    upsertTag p d = (d', Ok tt)
    /\ (forall k, table k d' = table k d /\ jtable k d' = jtable k d)
    /\ (exists t,
          find (fun t => String.eqb (t_webflowItemId t) (it_id p)) (tags d') = Some t
          /\ t_name t = fd_name fd
          /\ t_slug t = pick (fd_slug fd) (match old with Some t0 => t_slug t0 | None => None end)
          /\ (forall t0, old = Some t0 -> t_id t = t_id t0))
    /\ (forall w, find (fun t => String.eqb (t_webflowItemId t) w) (tags d) <> None ->
                  find (fun t => String.eqb (t_webflowItemId t) w) (tags d') <> None).
Proof.
  cbv zeta.
  destruct (find (fun t => String.eqb (t_webflowItemId t) (it_id p)) (tags d)) as [t0|] eqn:Hf.
  - destruct (find_some _ _ Hf) as [_ Hw0]. apply String.eqb_eq in Hw0.
    unfold upsertTag. erewrite bind_ok.
    2:{ unfold select_tag_id_by_wid. rewrite Hf. reflexivity. }
    cbn [option_map]. eexists. split; [reflexivity|].
    set (g := fun t => if String.eqb (t_webflowItemId t) (it_id p)
                       then mkTag (t_id t) (t_webflowItemId t) (fd_name (it_fieldData p))
                                  (pick (fd_slug (it_fieldData p)) (t_slug t))
                       else t).
    assert (Hg : forall t, t_webflowItemId (g t) = t_webflowItemId t)
      by (intros t; unfold g; destruct (String.eqb _ _); reflexivity).
    split; [intros k; destruct k; split; reflexivity|].
    split.
    + exists (g t0). unfold set_tags. cbn [tags]. rewrite find_tag_pres by exact Hg.
      rewrite Hf. cbn [option_map]. unfold g. cbv beta. rewrite Hw0, String.eqb_refl.
      split; [reflexivity|]. split; [reflexivity|]. split; [reflexivity|].
      intros t1 Ht1. injection Ht1 as <-. reflexivity.
    + intros w Hw. unfold set_tags. cbn [tags]. rewrite find_tag_pres by exact Hg.
      intros H. destruct (find (fun t => String.eqb (t_webflowItemId t) w) (tags d));
        simpl in H; [discriminate H|contradiction].
  - unfold upsertTag. erewrite bind_ok.
    2:{ unfold select_tag_id_by_wid. rewrite Hf. reflexivity. }
    cbn [option_map]. erewrite bind_ok by reflexivity.
    replace (existsb _ (tags d)) with false.
    + eexists. split; [reflexivity|].
      split; [intros k; destruct k; split; reflexivity|].
      unfold set_tags. cbn [tags]. split.
      * eexists. rewrite find_app, Hf. simpl. rewrite String.eqb_refl.
        split; [reflexivity|]. split; [reflexivity|].
        split; [destruct (fd_slug _); reflexivity|].
        intros t1 Ht1. discriminate Ht1.
      * intros w Hw. rewrite find_app.
        intros H. destruct (find (fun t => String.eqb (t_webflowItemId t) w) (tags d));
        simpl in H; [discriminate H|contradiction].
    + symmetry. apply not_true_iff_false. intros Hex. apply existsb_exists in Hex.
      destruct Hex as [x [Hin Hx]]. apply orb_true_iff in Hx.
      rewrite (fresh_id_fresh d (t_id x) (tag_ids_in_all_ids d x Hin)) in Hx.
      rewrite (find_none _ _ Hf x Hin) in Hx.
      destruct Hx as [Hx|Hx]; discriminate Hx.
Qed.

(** X7: [upsertTag] (webhook) and the loop body of [syncTagsFromCollection]:
    it never fails; afterwards the tag of the payload's external id has the
    payload's name, the local id it had before (if any), and its stored
    slug when the payload carries none; only the tag table changes. *)
Theorem X_upsertTag_spec p d :
  let fd := it_fieldData p in
  let old := find (fun t => String.eqb (t_webflowItemId t) (it_id p)) (tags d) in
  exists d',
    upsertTag p d = (d', Ok tt)
    /\ (forall k, table k d' = table k d /\ jtable k d' = jtable k d)
    /\ exists t,
         find (fun t => String.eqb (t_webflowItemId t) (it_id p)) (tags d') = Some t
         /\ t_name t = fd_name fd
         /\ t_slug t = pick (fd_slug fd) (match old with Some t0 => t_slug t0 | None => None end)
         /\ (forall t0, old = Some t0 -> t_id t = t_id t0).
Proof.
  cbv zeta. destruct (upsertTag_ok p d) as (d' & Hu & Hk & Ht & _).
  exists d'. split; [exact Hu|]. split; [exact Hk|exact Ht].
Qed.

Lemma for_each_upsertTag (items : list item) : forall d,
  exists d',
    for_each items upsertTag d = (d', Ok tt)
    /\ (forall k, table k d' = table k d /\ jtable k d' = jtable k d)
    /\ (forall w, find (fun t => String.eqb (t_webflowItemId t) w) (tags d) <> None ->
                  find (fun t => String.eqb (t_webflowItemId t) w) (tags d') <> None)
    /\ (forall it, In it items ->
          find (fun t => String.eqb (t_webflowItemId t) (it_id it)) (tags d') <> None).
Proof.
  induction items as [|it items IH]; intros d.
  - exists d. split; [reflexivity|]. split; [intros k; split; reflexivity|].
    split; [tauto|]. intros it [].
  - destruct (upsertTag_ok it d) as (d1 & Hu & Hk1 & (t & Ht & _) & Hkeep1).
    destruct (IH d1) as (d2 & Hl & Hk2 & Hkeep2 & Hall).
    exists d2. simpl. erewrite bind_ok by exact Hu. split; [exact Hl|].
    split; [intros k; rewrite (proj1 (Hk2 k)), (proj2 (Hk2 k)); apply Hk1|].
    split; [intros w Hw; apply Hkeep2, Hkeep1, Hw|].
    intros it' [<-|Hin]; [|apply Hall, Hin].
    apply Hkeep2. rewrite Ht. discriminate.
Qed.

(** X8: [syncTagsFromCollection] on a fetched list: it never fails and returns
    the number of items, every item's external id then has a tag, tags
    already present stay, and the entity and junction tables are untouched. *)
Theorem X_syncTagsFromCollection_count items d :
  exists d',
    syncTagsFromCollection (Ok items) d = (d', Ok (length items))
    /\ (forall k, table k d' = table k d /\ jtable k d' = jtable k d)
    /\ (forall w, find (fun t => String.eqb (t_webflowItemId t) w) (tags d) <> None ->
                  find (fun t => String.eqb (t_webflowItemId t) w) (tags d') <> None)
    /\ (forall it, In it items ->
          find (fun t => String.eqb (t_webflowItemId t) (it_id it)) (tags d') <> None).
Proof.
  destruct (for_each_upsertTag items d) as (d' & Hl & Hk & Hkeep & Hall).
  exists d'. unfold syncTagsFromCollection. erewrite bind_ok by exact Hl.
  split; [reflexivity|]. auto.
Qed.


(** *** The reconciliation loop *)

Lemma write_entity_keeps_ids k wid fd coords now d w :
  local_id k w d <> None -> local_id k w (fst (write_entity k wid fd coords now d)) <> None.
Proof.
  unfold local_id.
  destruct (find (fun r => String.eqb (r_webflowItemId r) wid) (table k d)) as [r0|] eqn:Hf.
  - rewrite (write_entity_update k wid fd coords now d r0 Hf). simpl.
    rewrite table_set_table, find_map_updated. tauto.
  - rewrite (write_entity_insert k wid fd coords now d Hf). simpl.
    rewrite table_set_table, find_app.
    intros H. destruct (find (fun r => String.eqb (r_webflowItemId r) w) (table k d));
      simpl in H |- *; [discriminate|contradiction].
Qed.

(** X9: The loop of [syncStories] / [syncPlaces] / [syncInitiatives]: when no
    item lists a tag twice (after resolution against the tag table), the
    loop never fails and counts exactly the items with readable
    coordinates; each such item then has a row of its external id, no row
    already there is lost, and neither the tag table nor the tables of the
    other kinds change. *)
Theorem X_sync_loop_count k now items : forall count d,
  (forall it, In it items -> NoDup (resolveTags (tags d) (tagIds k (it_fieldData it)))) ->
  exists d',
    sync_loop k now items count d
    = (d', Ok (count + length (filter has_coordinates items))%nat)
    /\ (forall it, In it items -> has_coordinates it = true ->
                   local_id k (it_id it) d' <> None)
    /\ (forall w, local_id k w d <> None -> local_id k w d' <> None)
    /\ tags d' = tags d
    /\ (forall k', k' <> k -> table k' d' = table k' d /\ jtable k' d' = jtable k' d).
Proof.
  induction items as [|it rest IH]; intros count d Hnd.
  - exists d. split; [simpl; rewrite Nat.add_0_r; reflexivity|].
    split; [intros it []|]. split; [tauto|]. split; [reflexivity|].
    intros; split; reflexivity.
  - cbn [sync_loop filter]. unfold has_coordinates at 1.
    destruct (parseCoordinates (it_fieldData it)) as [coords|] eqn:Hc.
    + destruct (write_entity_ok k (it_id it) (it_fieldData it) coords now d)
        as (eid & dw & Hw & Hid & _ & Hj & Ht & Hother).
      set (dj := fst ((if (0 <? length (tagIds k (it_fieldData it)))%nat
                       then syncTagJunction k eid (tagIds k (it_fieldData it))
                       else ret tt) dw)).
      assert (Hsync : (if (0 <? length (tagIds k (it_fieldData it)))%nat
                       then syncTagJunction k eid (tagIds k (it_fieldData it))
                       else ret tt) dw = (dj, Ok tt)
                      /\ tags dj = tags d /\ table k dj = table k dw
                      /\ (forall k', k' <> k -> table k' dj = table k' d
                                                /\ jtable k' dj = jtable k' d)).
      { unfold dj. destruct (0 <? length _)%nat.
        - rewrite syncTagJunction_spec.
          + simpl. rewrite tags_set_jtable, table_set_jtable. split; [reflexivity|].
            split; [exact Ht|]. split; [reflexivity|].
            intros k' Hk. rewrite table_set_jtable, jtable_set_jtable_other by exact Hk.
            split; [apply Hother, Hk|apply Hj].
          + rewrite Ht. apply Hnd. left. reflexivity.
        - simpl. split; [reflexivity|]. split; [exact Ht|]. split; [reflexivity|].
          intros k' Hk. split; [apply Hother, Hk|apply Hj]. }
      destruct Hsync as (Hs & Htj & Htab & Hoth).
      assert (Hloc : forall w, local_id k w dj = local_id k w dw)
        by (intros w; unfold local_id; rewrite Htab; reflexivity).
      destruct (IH (S count) dj) as (d' & Hl & Hrows & Hkeep & Ht' & Hoth').
      { intros it' Hin. rewrite Htj. apply Hnd. right. exact Hin. }
      exists d'. erewrite bind_ok by exact Hw. erewrite bind_ok by exact Hs.
      split; [rewrite Hl; simpl; f_equal; f_equal; lia|].
      split; [|split].
      * intros it' [<-|Hin] Hhc; [|apply Hrows; assumption].
        apply Hkeep. rewrite Hloc, Hid. discriminate.
      * intros w Hw0. apply Hkeep. rewrite Hloc.
        pose proof (write_entity_keeps_ids k (it_id it) (it_fieldData it) coords now d w Hw0)
          as Hk. rewrite Hw in Hk. exact Hk.
      * split; [rewrite Ht', Htj; reflexivity|].
        intros k' Hk. rewrite (proj1 (Hoth' k' Hk)), (proj2 (Hoth' k' Hk)). apply Hoth, Hk.
    + destruct (IH count d) as (d' & Hl & Hrows & Hkeep & Ht' & Hoth').
      { intros it' Hin. apply Hnd. right. exact Hin. }
      exists d'. split; [exact Hl|]. split; [|auto].
      intros it' [<-|Hin] Hhc; [|apply Hrows; assumption].
      unfold has_coordinates in Hhc. rewrite Hc in Hhc. discriminate Hhc.
Qed.

(** *** Collection routing *)

Lemma map_get_set (c key : string) (v : contentType) (m : list (string * contentType)) :
  map_get c (map_set key v m) = if String.eqb key c then Some v else map_get c m.
Proof.
  induction m as [|[k' v'] r IH]; simpl.
  - destruct (String.eqb key c); reflexivity.
  - destruct (String.eqb k' key) eqn:E1; simpl.
    + apply String.eqb_eq in E1. subst k'. destruct (String.eqb key c); reflexivity.
    + rewrite IH. destruct (String.eqb k' c) eqn:E2; [|reflexivity].
      destruct (String.eqb key c) eqn:E3; [|reflexivity].
      apply String.eqb_eq in E2, E3. subst. rewrite String.eqb_refl in E1.
      discriminate E1.
Qed.

Lemma map_get_set_if c o v m :
  map_get c (set_if o v m) = if cid_matches o c then Some v else map_get c m.
Proof.
  destruct o as [s|]; unfold set_if, cid_matches; [|reflexivity].
  destruct (truthy (Some s)); cbn [andb]; [apply map_get_set|reflexivity].
Qed.

(** X10: The [collectionMap] of the webhook [POST]: an id configured for a tag
    collection routes to tags, whatever else it is configured as; otherwise
    initiatives win over places and places over stories (the later
    [map.set] wins); an id configured nowhere is unknown. *)
Theorem X_collectionMap_precedence env c :
  map_get c (collectionMap env)
  = if cid_matches (WEBFLOW_INITIATIVE_TAGS_COLLECTION_ID env) c
       || cid_matches (WEBFLOW_PLACE_TAGS_COLLECTION_ID env) c
       || cid_matches (WEBFLOW_STORY_TAGS_COLLECTION_ID env) c then Some CTag
    else if cid_matches (WEBFLOW_INITIATIVES_COLLECTION_ID env) c then Some CInitiative
    else if cid_matches (WEBFLOW_PLACES_COLLECTION_ID env) c then Some CPlace
    else if cid_matches (WEBFLOW_STORIES_COLLECTION_ID env) c then Some CPodcast
    else None.
Proof.
  unfold collectionMap. rewrite !map_get_set_if.
  destruct (cid_matches (WEBFLOW_INITIATIVE_TAGS_COLLECTION_ID env) c),
           (cid_matches (WEBFLOW_PLACE_TAGS_COLLECTION_ID env) c),
           (cid_matches (WEBFLOW_STORY_TAGS_COLLECTION_ID env) c); reflexivity.
Qed.

(** *** The [tags] query parameter *)

Lemma list_ascii_of_string_app (s t : string) :
  list_ascii_of_string (s ++ t) = (list_ascii_of_string s ++ list_ascii_of_string t)%list.
Proof. induction s as [|c s IH]; simpl; [reflexivity|]. rewrite IH. reflexivity. Qed.

Lemma split_acc_no_sep (sep : ascii) (l : list ascii) : forall r cur,
  ~ In sep l -> split_acc sep (l ++ r) cur = split_acc sep r (rev l ++ cur).
Proof.
  induction l as [|c l IH]; intros r cur Hno; simpl; [reflexivity|].
  destruct (Ascii.eqb c sep) eqn:E.
  - apply Ascii.eqb_eq in E. subst. exfalso. apply Hno. left. reflexivity.
  - rewrite IH by (intros H; apply Hno; right; exact H).
    rewrite <- app_assoc. reflexivity.
Qed.

Lemma split_concat (ids : list string) : forall x,
  (forall y, In y (x :: ids) -> ~ In ","%char (list_ascii_of_string y)) ->
  split "," (String.concat "," (x :: ids)) = x :: ids.
Proof.
  induction ids as [|y ids IH]; intros x Hno; unfold split.
  - simpl. rewrite <- (app_nil_r (list_ascii_of_string x)).
    rewrite split_acc_no_sep by (apply Hno; left; reflexivity).
    simpl. rewrite !app_nil_r, rev_involutive, string_of_list_ascii_of_string.
    reflexivity.
  - change (String.concat "," (x :: y :: ids)) with (x ++ "," ++ String.concat "," (y :: ids)).
    rewrite list_ascii_of_string_app, split_acc_no_sep by (apply Hno; left; reflexivity).
    simpl. rewrite app_nil_r, rev_involutive, string_of_list_ascii_of_string.
    f_equal. apply IH. intros z Hz. apply Hno. right. exact Hz.
Qed.

Lemma filter_truthy_plain (ids : list string) :
  (forall x, In x ids -> x <> EmptyString) -> filter (fun x => truthy (Some x)) ids = ids.
Proof.
  intros H. rewrite <- (filter_true ids) at 2. apply filter_ext_in.
  intros x Hx. apply truthy_Some, H, Hx.
Qed.

(** X11: [GET /api/podcasts?tags=...]: a [tags] parameter made by joining ids with
    commas (each non-empty and comma-free) is split back into exactly those
    ids, so a working store answers with [fetchFromDatabase] on them. *)
Theorem X_GET_tags_roundtrip getTime ids d configured liveTags live :
  plain_ids ids ->
  GET getTime (Some (String.concat "," ids)) (Ok d) configured liveTags live
  = match fetchFromDatabase (Ok d) ids with Ok l => RJson l | Err _ => RError500 end.
Proof.
  intros Hp. unfold GET.
  replace (filter (fun x => truthy (Some x)) (split "," (String.concat "," ids))) with ids.
  - destruct (fetchFromDatabase (Ok d) ids) eqn:E; [reflexivity|].
    unfold fetchFromDatabase in E. destruct (0 <? length ids)%nat;
      [destruct (nodup _ _)|]; discriminate E.
  - destruct ids as [|x ids]; [reflexivity|].
    rewrite split_concat by (intros y Hy; apply Hp, Hy).
    symmetry. apply filter_truthy_plain. intros y Hy. apply Hp, Hy.
Qed.

(** *** The full-sync route *)

Lemma tag_step_tables (fetched : string -> result (list item)) cid d :
  exists d' r,
    when_configured cid (fun c => syncTagsFromCollection (fetched c)) d = (d', r)
    /\ (forall k, table k d' = table k d /\ jtable k d' = jtable k d).
Proof.
  unfold when_configured. destruct cid as [s|].
  - destruct (truthy (Some s)).
    + destruct (fetched s) as [items|e] eqn:Hf.
      * destruct (for_each_upsertTag items d) as (d' & Hl & Hk & _).
        exists d', (Ok (Some (length items))). cbv [bind syncTagsFromCollection].
        rewrite Hl. split; [reflexivity|exact Hk].
      * exists d, (Err e). cbv [bind syncTagsFromCollection].
        split; [reflexivity|intros; split; reflexivity].
    + exists d, (Ok None). split; [reflexivity|intros; split; reflexivity].
  - exists d, (Ok None). split; [reflexivity|intros; split; reflexivity].
Qed.

(** X12: The sync sequence of the full-sync [POST] stops at the first failure:
    when the stories collection is configured and its fetch fails, the
    sync fails, and no entity or junction table has been written (only the
    tag collections, synced before, may have moved). *)
Theorem X_fullSync_stories_fetch_fails env fetched now d c e :
  se_STORIES env = Some c -> c <> EmptyString -> fetched c = Err e ->
  exists d' e',
    fullSync env fetched now d = (d', Err e')
    /\ (forall k, table k d' = table k d /\ jtable k d' = jtable k d).
Proof.
  intros Hs Hc Hf. unfold fullSync.
  destruct (tag_step_tables fetched (se_STORY_TAGS env) d) as (d1 & r1 & H1 & T1).
  unfold bind at 1. rewrite H1. destruct r1 as [a|e1];
    [|exists d1, e1; split; [reflexivity|exact T1]].
  destruct (tag_step_tables fetched (se_PLACE_TAGS env) d1) as (d2 & r2 & H2 & T2).
  unfold bind at 1. rewrite H2. destruct r2 as [b|e2];
    [|exists d2, e2; split; [reflexivity|intros k; rewrite (proj1 (T2 k)), (proj2 (T2 k)); apply T1]].
  destruct (tag_step_tables fetched (se_INITIATIVE_TAGS env) d2) as (d3 & r3 & H3 & T3).
  unfold bind at 1. rewrite H3. destruct r3 as [c3|e3].
  - exists d3, e. unfold bind at 1, when_configured. rewrite Hs.
    replace (truthy (Some c)) with true by (symmetry; apply truthy_Some, Hc).
    unfold bind at 1, syncKind. rewrite Hf.
    split; [reflexivity|]. intros k.
    rewrite (proj1 (T3 k)), (proj2 (T3 k)), (proj1 (T2 k)), (proj2 (T2 k)). apply T1.
  - exists d3, e3. split; [reflexivity|]. intros k.
    rewrite (proj1 (T3 k)), (proj2 (T3 k)), (proj1 (T2 k)), (proj2 (T2 k)). apply T1.
Qed.

(** X13: The authorisation of the full-sync [POST]: the request is refused with
    401, before any store access, exactly when its [authorization] header is
    not [Bearer] followed by the configured token; with no token
    configured, the header [Bearer undefined] is accepted. *)
Theorem X_fullSync_POST_auth expectedToken authHeader env fetched now d :
  FullSyncRoute.POST expectedToken authHeader env fetched now d
    = (d, Ok FullSyncRoute.Unauthorized)
  <-> authHeader <> Some ("Bearer " ++ match expectedToken with
                                        | Some t => t | None => "undefined" end).
Proof.
  unfold FullSyncRoute.POST. fold (FullSyncRoute.bearer expectedToken).
  destruct authHeader as [h|].
  - destruct (String.eqb h (FullSyncRoute.bearer expectedToken)) eqn:E.
    + apply String.eqb_eq in E. subst h.
      replace (truthy (Some (FullSyncRoute.bearer expectedToken))) with true
        by (symmetry; apply truthy_Some; unfold FullSyncRoute.bearer; discriminate).
      cbn [negb orb]. split; [|intros H; contradiction H; reflexivity].
      unfold catch, bind.
      destruct (fullSync env fetched now d) as [d' [r|e]];
        intros H; injection H as _ H; discriminate H.
    + rewrite orb_true_r. split; [|reflexivity].
      intros _ H. injection H as ->. rewrite String.eqb_refl in E. discriminate E.
  - split; [intros _ H; discriminate H|reflexivity].
Qed.

(** *** Sorting in the read layer *)

Section InsertionSort.

Context {A : Type} (cmp : A -> A -> Z).

(** [cmp] never puts each of two elements strictly before the other. *)
Hypothesis cmp_asym : forall a b, cmp a b < 0 -> 0 <= cmp b a.

(** [a] may stand before [b] in the output of the sort. *)
Definition sort_le (a b : A) : Prop := (cmp b a <? 0) = false.

Lemma insert_by_perm (x : A) (l : list A) : Permutation (insert_by cmp x l) (x :: l).
Proof.
  induction l as [|y l IH]; simpl; [reflexivity|].
  destruct (cmp x y <? 0); [reflexivity|].
  rewrite IH. apply perm_swap.
Qed.

Lemma sort_by_perm_acc (l : list A) : forall acc,
  Permutation (fold_left (fun acc x => insert_by cmp x acc) l acc) (l ++ acc).
Proof.
  induction l as [|x l IH]; intros acc; simpl; [reflexivity|].
  rewrite IH, insert_by_perm. symmetry. apply Permutation_middle.
Qed.

Lemma sort_by_perm (l : list A) : Permutation (sort_by cmp l) l.
Proof. unfold sort_by. rewrite sort_by_perm_acc, app_nil_r. reflexivity. Qed.

Lemma insert_by_sorted (x : A) (l : list A) :
  Sorted sort_le l -> Sorted sort_le (insert_by cmp x l).
Proof.
  induction l as [|y l IH]; intros Hs; simpl; [constructor; constructor|].
  destruct (cmp x y <? 0) eqn:E.
  - constructor; [exact Hs|]. constructor. unfold sort_le.
    apply Z.ltb_lt in E. apply Z.ltb_ge. apply cmp_asym, E.
  - apply Sorted_inv in Hs. destruct Hs as [Hs Hhd].
    constructor; [apply IH, Hs|].
    destruct l as [|z l]; simpl.
    + constructor. exact E.
    + destruct (cmp x z <? 0); constructor; [exact E|].
      apply HdRel_inv in Hhd. exact Hhd.
Qed.

Lemma sort_by_sorted (l : list A) : Sorted sort_le (sort_by cmp l).
Proof.
  unfold sort_by. assert (H : Sorted sort_le []) by constructor.
  revert H. generalize (@nil A) as acc.
  induction l as [|x l IH]; intros acc Hacc; simpl; [exact Hacc|].
  apply IH, insert_by_sorted, Hacc.
Qed.

End InsertionSort.

Lemma Sorted_map_rel {A B} (R : A -> A -> Prop) (R' : B -> B -> Prop) (f : A -> B) l :
  (forall a b, R a b -> R' (f a) (f b)) -> Sorted R l -> Sorted R' (map f l).
Proof.
  intros HR Hs. induction Hs as [|a l Hs IH Hhd]; simpl; constructor; [exact IH|].
  destruct Hhd; simpl; constructor. apply HR. assumption.
Qed.

Lemma desc_publishedAt_asym a b :
  desc_publishedAt a b < 0 -> 0 <= desc_publishedAt b a.
Proof.
  unfold desc_publishedAt.
  destruct (c_publishedAt (r_cols a)) as [x|], (c_publishedAt (r_cols b)) as [y|];
    try lia.
  rewrite (String.compare_antisym y x).
  destruct (String.compare x y); simpl; lia.
Qed.

Lemma with_tags_pub_order d a b :
  sort_le desc_publishedAt a b -> pub_order (with_tags d a) (with_tags d b).
Proof.
  unfold sort_le, pub_order, desc_publishedAt, with_tags. simpl.
  destruct (c_publishedAt (r_cols a)) as [x|], (c_publishedAt (r_cols b)) as [y|];
    simpl; try tauto; try discriminate.
  destruct (String.compare x y); simpl; discriminate.
Qed.

Lemma sorted_stories d (l : list row) :
  Sorted pub_order (map (with_tags d) (sort_by desc_publishedAt l)).
Proof.
  apply (Sorted_map_rel (sort_le desc_publishedAt)).
  - apply with_tags_pub_order.
  - apply sort_by_sorted, desc_publishedAt_asym.
Qed.

(** X14: [getStoriesFromDb]: every story row of the store appears once, with its
    tags, newest [publishedAt] first and undated stories last. *)
Theorem X_getStoriesFromDb_sorted d :
  exists rs,
    getStoriesFromDb (Ok d) = Ok (map (with_tags d) rs)
    /\ Permutation rs (stories d)
    /\ Sorted pub_order (map (with_tags d) rs).
Proof.
  exists (sort_by desc_publishedAt (stories d)). split; [reflexivity|].
  split; [apply sort_by_perm|apply sorted_stories].
Qed.

Lemma existsb_storyIds (f : list string) (js : list jrow) (x : string) :
  existsb (String.eqb x)
    (nodup string_dec (map fst (filter (fun j => existsb (String.eqb (snd j)) f) js)))
  = existsb (fun j => String.eqb (fst j) x && existsb (String.eqb (snd j)) f) js.
Proof.
  apply eq_iff_eq_true. rewrite !existsb_exists. split.
  - intros [y [Hy Hxy]]. apply nodup_In, in_map_iff in Hy.
    destruct Hy as [j [<- Hj]]. apply filter_In in Hj. destruct Hj as [Hj Hf].
    exists j. split; [exact Hj|]. apply String.eqb_eq in Hxy. rewrite Hxy.
    rewrite String.eqb_refl. exact Hf.
  - intros [j [Hj H]]. apply andb_true_iff in H. destruct H as [Hx Hf].
    apply String.eqb_eq in Hx. exists (fst j). split.
    + apply nodup_In, in_map, filter_In. split; assumption.
    + rewrite Hx. apply String.eqb_refl.
Qed.

(** X15: [fetchFromDatabase] of [GET /api/podcasts]: with no tag filter every
    story; with a filter exactly the stories having a [story_tags] row for
    one of the requested tags, each once (an empty answer when there is
    none); in both cases newest [publishedAt] first, undated last. *)
Theorem X_fetchFromDatabase_filter d f :
  exists rs,
    fetchFromDatabase (Ok d) f = Ok (map (with_tags d) rs)
    /\ Permutation rs
         (match f with
          | [] => stories d
          | _ :: _ =>
              filter (fun r => existsb (fun j => String.eqb (fst j) (r_id r)
                                                 && existsb (String.eqb (snd j)) f)
                                       (storyTags d)) (stories d)
          end)
    /\ Sorted pub_order (map (with_tags d) rs).
Proof.
  destruct f as [|t f'].
  - exists (sort_by desc_publishedAt (stories d)). split; [reflexivity|].
    split; [apply sort_by_perm|apply sorted_stories].
  - set (f := t :: f').
    set (P := fun r => existsb (fun j => String.eqb (fst j) (r_id r)
                                         && existsb (String.eqb (snd j)) f) (storyTags d)).
    unfold fetchFromDatabase. replace (0 <? length f)%nat with true by reflexivity.
    cbv zeta. set (ids := nodup string_dec _).
    assert (HP : forall r, existsb (String.eqb (r_id r)) ids = P r)
      by (intros r; unfold ids, P; apply existsb_storyIds).
    assert (HF : forall l, filter (fun r => existsb (String.eqb (r_id r)) ids) l = filter P l)
      by (intros l; apply filter_ext; exact HP).
    clearbody ids. change (filter (fun r => existsb (fun j => String.eqb (fst j) (r_id r)
                             && existsb (String.eqb (snd j)) f) (storyTags d)) (stories d))
                     with (filter P (stories d)).
    rewrite <- HF. destruct ids as [|y ys].
    + exists []. split; [reflexivity|]. split; [|constructor].
      simpl. induction (stories d); simpl; [constructor|exact IHl].
    + exists (sort_by desc_publishedAt
                (filter (fun r => existsb (String.eqb (r_id r)) (y :: ys)) (stories d))).
      split; [reflexivity|].
      split; [apply sort_by_perm|apply sorted_stories].
Qed.

(** *** The live read path ([src/lib/podcasts.ts], [src/lib/shared.ts]) *)

Lemma shared_numbers s lat lng :
  parseCoordinatesShared s = Some (lat, lng) ->
  length (split "," s) = 2%nat /\ isNaN lat = false /\ isNaN lng = false.
Proof.
  unfold parseCoordinatesShared.
  destruct (split "," s) as [|p0 [|p1 [|p2 r]]]; simpl; try (intros H; discriminate H).
  destruct (isNaN (parseFloat (trim p0))) eqn:E0, (isNaN (parseFloat (trim p1))) eqn:E1;
    simpl; intros H; try discriminate H.
  injection H as <- <-. auto.
Qed.

(** X16: The two coordinate parsers agree on a combined string that the live
    parser reads: the sync parser of the webhook and the reconciliation job
    then stores the very coordinates the live path shows. *)
Theorem X_parseCoordinates_agree fd s c :
  fd_location_coordinates fd = Some s -> parseCoordinatesShared s = Some c ->
  parseCoordinates fd = Some c /\ transformEpisodeCoords fd = Some c.
Proof.
  intros Hs Hc. destruct c as [lat lng].
  pose proof (shared_numbers s lat lng Hc) as (Hlen & Hlat & Hlng).
  assert (Ht : truthy (Some s) = true).
  { apply truthy_Some. intros ->. discriminate Hlen. }
  unfold parseCoordinates, transformEpisodeCoords. rewrite Hs, Ht.
  split; [|exact Hc].
  unfold parseCoordinatesShared in Hc.
  destruct (map trim (split "," s)) as [|p0 [|p1 [|p2 r]]]; try discriminate Hc.
  destruct (isNaN (parseFloat p0)), (isNaN (parseFloat p1)); simpl in Hc |- *;
    try discriminate Hc. exact Hc.
Qed.

Lemma transformEpisodeCoords_numbers fd lat lng :
  transformEpisodeCoords fd = Some (lat, lng) -> isNaN lat = false /\ isNaN lng = false.
Proof.
  unfold transformEpisodeCoords.
  destruct (truthy (fd_location_coordinates fd)).
  - destruct (fd_location_coordinates fd) as [s|]; [|intros H; discriminate H].
    intros H. apply shared_numbers in H. tauto.
  - destruct (truthy_strnum (fd_latitude_2 fd) && truthy_strnum (fd_longitude_2 fd));
      [|intros H; discriminate H].
    destruct (fd_latitude_2 fd) as [a|], (fd_longitude_2 fd) as [b|];
      try (intros H; discriminate H).
    destruct (isNaN (parseFloat_strnum a)) eqn:Ea, (isNaN (parseFloat_strnum b)) eqn:Eb;
      simpl; intros H; try discriminate H.
    injection H as <- <-. auto.
Qed.

Lemma in_tag_lookup (tm : list tagOut) i t :
  In t (match find (fun t => String.eqb (tg_id t) i) (rev tm) with
        | Some t => [t] | None => [] end) <-> find (fun t => String.eqb (tg_id t) i) (rev tm) = Some t.
Proof.
  destruct (find _ (rev tm)) as [t'|]; simpl; split.
  - intros [<-|[]]. reflexivity.
  - intros H. injection H as <-. left. reflexivity.
  - intros [].
  - intros H. discriminate H.
Qed.

(** X17: [transformEpisode]: a produced podcast keeps the episode's id, has
    numeric coordinates, and its tags are the known tags of the
    [episode-tags] list: each comes from the tag map with a requested id,
    every requested id that the map knows is present, and there are no more
    tags than requested ids. *)
Theorem X_transformEpisode_spec e tm p :
  transformEpisode e tm = Some p ->
  let ids := match fd_episode_tags (it_fieldData e) with Some l => l | None => [] end in
  pd_id p = it_id e
  /\ coord_ok (c_latitude (pd_cols p)) = true /\ coord_ok (c_longitude (pd_cols p)) = true
  /\ (forall t, In t (pd_tags p) -> In t tm /\ In (tg_id t) ids)
  /\ (forall i, In i ids -> (exists t, In t tm /\ tg_id t = i) ->
                exists t, In t (pd_tags p) /\ tg_id t = i)
  /\ (length (pd_tags p) <= length ids)%nat.
Proof.
  unfold transformEpisode. cbv zeta.
  destruct (transformEpisodeCoords (it_fieldData e)) as [[lat lng]|] eqn:Hc;
    [|intros H; discriminate H].
  intros H. injection H as <-. cbn [pd_id pd_cols pd_tags c_latitude c_longitude].
  destruct (transformEpisodeCoords_numbers _ _ _ Hc) as [Hlat Hlng].
  split; [reflexivity|]. split; [simpl; rewrite Hlat; reflexivity|].
  split; [simpl; rewrite Hlng; reflexivity|].
  set (ids := match fd_episode_tags (it_fieldData e) with Some l => l | None => [] end).
  split; [|split].
  - intros t Ht. apply in_flat_map in Ht. destruct Ht as [i [Hi Ht]].
    apply in_tag_lookup in Ht. destruct (find_some _ _ Ht) as [Hin Heq].
    apply String.eqb_eq in Heq. split; [apply in_rev, Hin|rewrite Heq; exact Hi].
  - intros i Hi [t [Ht Hid]].
    destruct (find (fun t => String.eqb (tg_id t) i) (rev tm)) as [t'|] eqn:Hf.
    + exists t'. split.
      * apply in_flat_map. exists i. split; [exact Hi|]. apply in_tag_lookup. exact Hf.
      * destruct (find_some _ _ Hf) as [_ Heq]. apply String.eqb_eq, Heq.
    + pose proof (find_none _ _ Hf t (proj1 (in_rev tm t) Ht)) as E. simpl in E.
      rewrite Hid, String.eqb_refl in E. discriminate E.
  - clearbody ids. induction ids as [|i ids IH]; simpl; [lia|].
    destruct (find _ (rev tm)); simpl; lia.
Qed.

Lemma newest_first_asym getTime a b :
  newest_first getTime a b < 0 -> 0 <= newest_first getTime b a.
Proof.
  unfold newest_first.
  destruct (c_publishedAt (pd_cols a)) as [x|], (c_publishedAt (pd_cols b)) as [y|];
    try lia.
  destruct (getTime x), (getTime y); lia.
Qed.

Lemma newest_first_live_order getTime a b :
  dated_ok getTime a -> dated_ok getTime b ->
  sort_le (newest_first getTime) a b -> live_order getTime a b.
Proof.
  unfold dated_ok, sort_le, live_order, newest_first. intros Ha Hb.
  destruct (c_publishedAt (pd_cols a)) as [x|], (c_publishedAt (pd_cols b)) as [y|];
    simpl; try tauto; try discriminate.
  specialize (Ha x eq_refl). specialize (Hb y eq_refl).
  destruct (getTime x) as [tx|]; [|contradiction].
  destruct (getTime y) as [ty|]; [|contradiction].
  intros H. apply Z.ltb_ge in H. lia.
Qed.

Lemma Sorted_impl_in {A} (R R' : A -> A -> Prop) (l : list A) :
  (forall a b, In a l -> In b l -> R a b -> R' a b) -> Sorted R l -> Sorted R' l.
Proof.
  intros HR Hs. induction Hs as [|a l Hs IH Hhd]; constructor.
  - apply IH. intros x y Hx Hy. apply HR; right; assumption.
  - destruct Hhd as [|b l' Hab]; constructor.
    apply HR; [left; reflexivity|right; left; reflexivity|exact Hab].
Qed.

Lemma transformEpisode_publishedAt e tm p :
  transformEpisode e tm = Some p ->
  c_publishedAt (pd_cols p) = or_null (fd_published_date (it_fieldData e)).
Proof.
  unfold transformEpisode. destruct (transformEpisodeCoords _) as [[lat lng]|];
    [|discriminate]. intros H. injection H as <-. reflexivity.
Qed.

Lemma tag_filter_true (fl : list string) (p : podcast) :
  existsb (fun t => existsb (String.eqb (tg_id t)) fl) (pd_tags p) = true
  <-> exists t, In t (pd_tags p) /\ In (tg_id t) fl.
Proof.
  rewrite existsb_exists. split.
  - intros [t [Ht Hex]]. apply existsb_exists in Hex. destruct Hex as [i [Hi Heq]].
    apply String.eqb_eq in Heq. exists t. split; [exact Ht|rewrite Heq; exact Hi].
  - intros [t [Ht Hi]]. exists t. split; [exact Ht|].
    apply existsb_exists. exists (tg_id t). split; [exact Hi|apply String.eqb_refl].
Qed.




(** *** [getRandomPodcast] *)

Lemma random_index_bound (num den : Z) (n : nat) :
  0 <= num < den -> (0 < n)%nat ->
  (Z.to_nat (num * Z.of_nat n / den) < n)%nat.
Proof.
  intros Hr Hn.
  assert (H0 : 0 <= num * Z.of_nat n / den) by (apply Z.div_pos; lia).
  assert (H1 : num * Z.of_nat n / den < Z.of_nat n)
    by (apply Z.div_lt_upper_bound; nia).
  lia.
Qed.

(** X19: [getRandomPodcast] with [Math.random()] in [[0, 1)]: it answers [null]
    exactly when every podcast carries the excluded slug (in particular on
    an empty list), and otherwise returns one of the given podcasts, never
    one with the excluded slug. *)
Theorem X_getRandomPodcast_spec ps excludeSlug num den :
  0 <= num < den ->
  (getRandomPodcast ps excludeSlug num den = None
   <-> forall p, In p ps -> excluded excludeSlug p = true)
  /\ (forall p, getRandomPodcast ps excludeSlug num den = Some p ->
                In p ps /\ excluded excludeSlug p = false).
Proof.
  intros Hr. unfold getRandomPodcast. cbv zeta.
  set (filtered := match excludeSlug with
                   | Some ex => if truthy (Some ex) then filter (slug_differs ex) ps else ps
                   | None => ps
                   end).
  assert (Hf : forall p, In p filtered <-> In p ps /\ excluded excludeSlug p = false).
  { intros p. unfold filtered, excluded. destruct excludeSlug as [ex|]; [|tauto].
    destruct (truthy (Some ex)); cbn [andb]; [|tauto].
    rewrite filter_In. unfold slug_differs.
    destruct (c_slug (pd_cols p)); [|tauto].
    rewrite negb_true_iff. tauto. }
  clearbody filtered.
  destruct (length filtered =? 0)%nat eqn:Hlen.
  - apply Nat.eqb_eq, length_zero_iff_nil in Hlen. subst filtered.
    split; [split; [|reflexivity]|intros p H; discriminate H].
    intros _ p Hp. destruct (excluded excludeSlug p) eqn:E; [reflexivity|].
    exfalso. apply (proj2 (Hf p)). split; assumption.
  - apply Nat.eqb_neq in Hlen.
    pose proof (random_index_bound num den (length filtered) Hr ltac:(lia)) as Hb.
    split.
    + split; [|intros Hall].
      * intros H. apply nth_error_None in H. lia.
      * exfalso. destruct filtered as [|p r]; [simpl in Hlen; lia|].
        destruct (proj1 (Hf p) (or_introl eq_refl)) as [Hin Hex].
        rewrite (Hall p Hin) in Hex. discriminate Hex.
    + intros p Hp. apply Hf. eapply nth_error_In. exact Hp.
Qed.

(** *** Tags of a stored story *)

(** X20: The tag join of [getStoriesFromDb] and of [fetchFromDatabase]: a story
    gets exactly the tags that a [story_tags] row links it to, as
    [{ id, name, slug }]. *)
Theorem X_story_tags_of_join d sid t :
  In t (story_tags_of d sid)
  <-> exists tr, In tr (tags d) /\ In (sid, t_id tr) (storyTags d)
                 /\ t = mkTagOut (t_id tr) (t_name tr) (t_slug tr).
Proof.
  unfold story_tags_of. rewrite in_flat_map. split.
  - intros [[a b] [Hj Ht]]. simpl in Ht.
    destruct (String.eqb a sid) eqn:E; [|destruct Ht].
    apply String.eqb_eq in E. subst a.
    apply in_map_iff in Ht. destruct Ht as [tr [<- Htr]].
    apply filter_In in Htr. destruct Htr as [Htr Hid]. apply String.eqb_eq in Hid.
    exists tr. split; [exact Htr|]. split; [rewrite Hid; exact Hj|reflexivity].
  - intros [tr [Htr [Hj ->]]]. exists (sid, t_id tr). split; [exact Hj|].
    simpl. rewrite String.eqb_refl. apply in_map_iff. exists tr.
    split; [reflexivity|]. apply filter_In. split; [exact Htr|apply String.eqb_refl].
Qed.

(** *** The places route *)

Lemma asc_title_asym a b :
  PlacesRoute.asc_title a b < 0 -> 0 <= PlacesRoute.asc_title b a.
Proof.
  unfold PlacesRoute.asc_title.
  destruct (c_title (r_cols a)) as [x|], (c_title (r_cols b)) as [y|]; try lia.
  rewrite (String.compare_antisym y x).
  destruct (String.compare x y); simpl; lia.
Qed.

Lemma with_place_tags_order d a b :
  sort_le PlacesRoute.asc_title a b ->
  PlacesRoute.title_order (PlacesRoute.with_place_tags d a) (PlacesRoute.with_place_tags d b).
Proof.
  unfold sort_le, PlacesRoute.title_order, PlacesRoute.asc_title,
    PlacesRoute.with_place_tags. simpl.
  destruct (c_title (r_cols a)) as [x|], (c_title (r_cols b)) as [y|];
    simpl; try tauto; try discriminate.
  rewrite (String.compare_antisym y x).
  destruct (String.compare x y); simpl; discriminate.
Qed.

Lemma sorted_places d (l : list row) :
  Sorted PlacesRoute.title_order
    (map (PlacesRoute.with_place_tags d) (sort_by PlacesRoute.asc_title l)).
Proof.
  apply (Sorted_map_rel (sort_le PlacesRoute.asc_title)).
  - apply with_place_tags_order.
  - apply sort_by_sorted, asc_title_asym.
Qed.

(** X21: [fetchFromDatabase] of [GET /api/places]: with no tag filter every
    place; with a filter exactly the places having a [place_tags] row for
    one of the requested tags, each once; in both cases by title,
    ascending, untitled places first. *)
Theorem X_places_fetchFromDatabase_filter d f :
  exists rs,
    PlacesRoute.fetchFromDatabase (Ok d) f = Ok (map (PlacesRoute.with_place_tags d) rs)
    /\ Permutation rs
         (match f with
          | [] => places d
          | _ :: _ =>
              filter (fun r => existsb (fun j => String.eqb (fst j) (r_id r)
                                                 && existsb (String.eqb (snd j)) f)
                                       (placeTags d)) (places d)
          end)
    /\ Sorted PlacesRoute.title_order (map (PlacesRoute.with_place_tags d) rs).
Proof.
  destruct f as [|t f'].
  - exists (sort_by PlacesRoute.asc_title (places d)). split; [reflexivity|].
    split; [apply sort_by_perm|apply sorted_places].
  - set (f := t :: f').
    set (P := fun r => existsb (fun j => String.eqb (fst j) (r_id r)
                                         && existsb (String.eqb (snd j)) f) (placeTags d)).
    unfold PlacesRoute.fetchFromDatabase. replace (0 <? length f)%nat with true by reflexivity.
    cbv zeta. set (ids := nodup string_dec _).
    assert (HP : forall r, existsb (String.eqb (r_id r)) ids = P r)
      by (intros r; unfold ids, P; apply existsb_storyIds).
    assert (HF : forall l, filter (fun r => existsb (String.eqb (r_id r)) ids) l = filter P l)
      by (intros l; apply filter_ext; exact HP).
    clearbody ids. change (filter (fun r => existsb (fun j => String.eqb (fst j) (r_id r)
                             && existsb (String.eqb (snd j)) f) (placeTags d)) (places d))
                     with (filter P (places d)).
    rewrite <- HF. destruct ids as [|y ys].
    + exists []. split; [reflexivity|]. split; [|constructor].
      simpl. induction (places d); simpl; [constructor|exact IHl].
    + exists (sort_by PlacesRoute.asc_title
                (filter (fun r => existsb (String.eqb (r_id r)) (y :: ys)) (places d))).
      split; [reflexivity|].
      split; [apply sort_by_perm|apply sorted_places].
Qed.

(** *** The legacy podcast sync *)

(** X22: A story whose only coordinates are a numeric latitude [0] (the
    equator) is skipped by the legacy [syncPodcasts], while the current
    [parseCoordinates] of the webhook and the reconciliation job keeps it. *)
Theorem X_legacy_skips_equator fd e n :
  fd_location_coordinates fd = None ->
  fd_latitude_2 fd = Some (SNum (Fin 0 e)) -> fd_longitude_2 fd = Some (SNum n) ->
  isNaN n = false ->
  legacyCoordinates fd = None /\ parseCoordinates fd = Some (Fin 0 e, n).
Proof.
  intros Hc Hlat Hlng Hn. unfold legacyCoordinates, parseCoordinates.
  rewrite Hc, Hlat, Hlng. simpl. rewrite Hn. split; reflexivity.
Qed.

(* ------------------------------------------------------------------ *)
(** ** Witnesses of the further properties                            *)
(* ------------------------------------------------------------------ *)

Lemma X_deleteEntity_witness :
  Place <> Story
  /\ NoDup (map r_id (table Place tagged_p1_db))
  /\ NoDup (map r_webflowItemId (table Place tagged_p1_db))
  /\ exists d', deleteEntity Place "p1" tagged_p1_db = (d', Ok tt)
                /\ table Place d' = [] /\ placeTags d' = [].
Proof.
  assert (Hk : Place <> Story) by discriminate.
  assert (H1 : NoDup (map r_id (table Place tagged_p1_db)))
    by (vm_compute; constructor; [intros []|constructor]).
  assert (H2 : NoDup (map r_webflowItemId (table Place tagged_p1_db)))
    by (vm_compute; constructor; [intros []|constructor]).
  split; [exact Hk|]. split; [exact H1|]. split; [exact H2|].
  destruct (X_deleteEntity_spec Place "p1" tagged_p1_db Hk H1 H2)
    as (d' & Hd & Ht & Hj & _).
  exists d'. split; [exact Hd|]. split; [rewrite Ht; vm_compute; reflexivity|].
  change (placeTags d') with (jtable Place d').
  rewrite (Hj "T1-") by (vm_compute; reflexivity). vm_compute. reflexivity.
Defined.

Lemma X_deleteTag_witness :
  NoDup (map t_id (tags tagged_e1_db)) /\ NoDup (map t_webflowItemId (tags tagged_e1_db))
  /\ exists d', deleteTag "t1" tagged_e1_db = (d', Ok tt) /\ tags d' = []
                /\ ~ In ("T1-", "T1") (storyTags d').
Proof.
  assert (H1 : NoDup (map t_id (tags tagged_e1_db)))
    by (vm_compute; constructor; [intros []|constructor]).
  assert (H2 : NoDup (map t_webflowItemId (tags tagged_e1_db)))
    by (vm_compute; constructor; [intros []|constructor]).
  split; [exact H1|]. split; [exact H2|].
  destruct (X_deleteTag_cascade "t1" tagged_e1_db H1 H2) as (d' & Hd & Ht & Hj & _).
  exists d'. split; [exact Hd|]. split; [rewrite Ht; vm_compute; reflexivity|].
  intros Hin. apply (proj1 (Hj Story ("T1-", "T1"))) in Hin. destruct Hin as [_ Hall].
  apply (Hall (mkTag "T1" "t1" "Nature" None)); [vm_compute; left; reflexivity|reflexivity|reflexivity].
Defined.

Lemma X_sync_loop_witness :
  (forall it, In it [no_coords_item; forest_walk ["t1"]] ->
              NoDup (resolveTags (tags tag_t1_db) (tagIds Story (it_fieldData it))))
  /\ exists d', sync_loop Story "2026-01-02" [no_coords_item; forest_walk ["t1"]] 0 tag_t1_db
                = (d', Ok 1%nat).
Proof.
  assert (H : forall it, In it [no_coords_item; forest_walk ["t1"]] ->
              NoDup (resolveTags (tags tag_t1_db) (tagIds Story (it_fieldData it)))).
  { intros it [<-|[<-|[]]]; vm_compute; constructor; try (intros []); constructor. }
  split; [exact H|].
  destruct (X_sync_loop_count Story "2026-01-02" [no_coords_item; forest_walk ["t1"]]
              0 tag_t1_db H) as (d' & Hl & _).
  exists d'. rewrite Hl. reflexivity.
Defined.

Lemma X_GET_tags_witness :
  plain_ids ["T1"; "T2"]
  /\ GET (fun _ => Some 0) (Some (String.concat "," ["T1"; "T2"])) (Ok tagged_e1_db) true [] (Ok [])
     = match fetchFromDatabase (Ok tagged_e1_db) ["T1"; "T2"] with
       | Ok l => RJson l | Err _ => RError500 end.
Proof.
  assert (H : plain_ids ["T1"; "T2"]).
  { intros x [<-|[<-|[]]]; (split; [discriminate|simpl; intros [H|[H|[]]]; discriminate H]). }
  split; [exact H|]. apply X_GET_tags_roundtrip. exact H.
Defined.

Lemma X_fullSync_witness :
  se_STORIES all_kinds_env = Some "stories" /\ "stories" <> EmptyString
  /\ fetched_stories_down "stories" = Err "Webflow API error: Service Unavailable"
  /\ exists d' e', fullSync all_kinds_env fetched_stories_down "2026-01-02" tag_t1_db
                   = (d', Err e') /\ stories d' = [].
Proof.
  assert (H1 : se_STORIES all_kinds_env = Some "stories") by reflexivity.
  assert (H2 : "stories" <> EmptyString) by discriminate.
  assert (H3 : fetched_stories_down "stories" = Err "Webflow API error: Service Unavailable")
    by reflexivity.
  split; [exact H1|]. split; [exact H2|]. split; [exact H3|].
  destruct (X_fullSync_stories_fetch_fails all_kinds_env fetched_stories_down "2026-01-02"
              tag_t1_db "stories" _ H1 H2 H3) as (d' & e' & Hf & Ht).
  exists d', e'. split; [exact Hf|]. exact (proj1 (Ht Story)).
Defined.

Lemma X_parseCoordinates_agree_witness :
  fd_location_coordinates (it_fieldData (forest_walk [])) = Some "52.01, 4.35"
  /\ parseCoordinatesShared "52.01, 4.35" = Some (Fin 5201 (-2), Fin 435 (-2))
  /\ parseCoordinates (it_fieldData (forest_walk [])) = Some (Fin 5201 (-2), Fin 435 (-2)).
Proof.
  assert (H1 : fd_location_coordinates (it_fieldData (forest_walk [])) = Some "52.01, 4.35")
    by reflexivity.
  assert (H2 : parseCoordinatesShared "52.01, 4.35" = Some (Fin 5201 (-2), Fin 435 (-2)))
    by (vm_compute; reflexivity).
  split; [exact H1|]. split; [exact H2|].
  exact (proj1 (X_parseCoordinates_agree _ _ _ H1 H2)).
Defined.

Lemma X_transformEpisode_witness :
  exists p, transformEpisode (forest_walk ["t1"; "t9"]) [mkTagOut "t1" "Nature" None] = Some p
            /\ pd_id p = "e1".
Proof.
  destruct (transformEpisode (forest_walk ["t1"; "t9"]) [mkTagOut "t1" "Nature" None])
    as [p|] eqn:H.
  - exists p. split; [reflexivity|]. exact (proj1 (X_transformEpisode_spec _ _ _ H)).
  - vm_compute in H. discriminate H.
Defined.

Lemma X_getRandomPodcast_witness :
  0 <= 1 < 2 /\ getRandomPodcast [podcast_a] (Some "x") 1 2 = Some podcast_a
  /\ In podcast_a [podcast_a] /\ excluded (Some "x") podcast_a = false.
Proof.
  assert (Hr : 0 <= 1 < 2) by lia.
  assert (Hg : getRandomPodcast [podcast_a] (Some "x") 1 2 = Some podcast_a)
    by (vm_compute; reflexivity).
  split; [exact Hr|]. split; [exact Hg|].
  exact (proj2 (X_getRandomPodcast_spec [podcast_a] (Some "x") 1 2 Hr) podcast_a Hg).
Defined.

Lemma X_legacy_equator_witness :
  let fd := fields_with Story "Equator" None (Some (SNum (Fin 0 0)))
              (Some (SNum (Fin 435 (-2)))) None in
  legacyCoordinates fd = None /\ parseCoordinates fd = Some (Fin 0 0, Fin 435 (-2)).
Proof.
  intros fd. apply (X_legacy_skips_equator fd 0 (Fin 435 (-2))); reflexivity.
Defined.
